(** * DIY helper tool servers: keyword search and material calculators

    A shallow embedding of the code the specification is about:

    - [CodeDatabase] (src/building_codes_server/code_database.py): loading of
      the JSON corpus, [search] and [get_section];
    - [MaterialCalculator] (src/material_specs_server/calculators.py):
      [calculate_wire_length] and [calculate_tile_needed];
    - [HomeDepotSupplier] (src/material_specs_server/suppliers/home_depot.py):
      [search_products] over the shared list of [Product] objects.

    Python values are modelled as follows.  A [str] is a [string] of ASCII
    characters ([lower] and the whitespace of [split] are Python's on the
    ASCII range).  A JSON object is a [gmap string value].  An [int] is a [Z],
    a [float] is a binary64 [float] of the kernel, and arithmetic follows
    Python's coercions.  A raised exception is a value of [result]. *)

From Stdlib Require Import ZArith Ascii Floats Sorted Permutation Lia.
From stdpp Require Import base option strings pretty list gmap sorting.

Set Default Proof Using "Type".
Set Warnings "-inexact-float,-register-all".

(** ** Python primitives *)

Module Py.

(** Exceptions the modelled code can raise. *)
Inductive exn : Type :=
  | TypeError
  | ValueError
  | OverflowError
  | ZeroDivisionError
  | JSONDecodeError.

Inductive result (A : Type) : Type :=
  | Ok (a : A)
  | Raise (e : exn).
Global Arguments Ok {A} a.
Global Arguments Raise {A} e.

Definition bind {A B} (m : result A) (k : A → result B) : result B :=
  match m with
  | Ok a => k a
  | Raise e => Raise e
  end.

Global Instance result_bind : MBind result := λ A B k m, bind m k.
Global Instance result_ret : MRet result := λ A a, Ok a.

(** A [for] loop whose body may raise: the accumulator is threaded through
    the elements in order, and the first exception ends the loop. *)
Fixpoint for_each {A S} (body : S → A → result S) (s : S) (xs : list A)
    : result S :=
  match xs with
  | [] => Ok s
  | x :: xs' => s' ← body s x; for_each body s' xs'
  end.

(** *** Strings *)

(** [str.lower] on one ASCII character.  On ASCII text [s.lower()] is
    [lower s]; what depends on the lowering of other text is left out of the
    properties below, or stated for ASCII text. *)
Definition lower_ascii (c : ascii) : ascii :=
  let n := Ascii.N_of_ascii c in
  if (65 <=? n)%N && (n <=? 90)%N then Ascii.ascii_of_N (n + 32) else c.

Fixpoint lower (s : string) : string :=
  match s with
  | EmptyString => EmptyString
  | String c s' => String (lower_ascii c) (lower s')
  end.

(** [str.isspace] on one ASCII character: tab, line feed, vertical tab, form
    feed, carriage return, the four separators 0x1c-0x1f, and space. *)
Definition is_space (c : ascii) : bool :=
  let n := Ascii.N_of_ascii c in
  ((9 <=? n)%N && (n <=? 13)%N) || ((28 <=? n)%N && (n <=? 32)%N).

(** [s.split()] with no separator: maximal runs of non-whitespace.  [cur]
    holds the characters of the current run, latest first. *)
Fixpoint split_go (cur : string) (s : string) : list string :=
  match s with
  | EmptyString =>
      match cur with EmptyString => [] | _ => [String.rev cur] end
  | String c s' =>
      if is_space c then
        match cur with
        | EmptyString => split_go EmptyString s'
        | _ => String.rev cur :: split_go EmptyString s'
        end
      else split_go (String c cur) s'
  end.

Definition split (s : string) : list string := split_go EmptyString s.

(** [t.startswith(w)]. *)
Fixpoint starts_with (w t : string) : bool :=
  match w, t with
  | EmptyString, _ => true
  | String _ _, EmptyString => false
  | String a w', String b t' => bool_decide (a = b) && starts_with w' t'
  end.

(** [w in t] on strings: [w] occurs at some offset of [t]. *)
Fixpoint contains (t w : string) : bool :=
  starts_with w t ||
  match t with
  | EmptyString => false
  | String _ t' => contains t' w
  end.

(** [sep.join(xs)] on a list of strings. *)
Fixpoint join (sep : string) (xs : list string) : string :=
  match xs with
  | [] => EmptyString
  | [x] => x
  | x :: xs' => x +:+ sep +:+ join sep xs'
  end.

(** The characters of a string, each as a one-character string (iteration
    over a [str]). *)
Fixpoint chars (s : string) : list string :=
  match s with
  | EmptyString => []
  | String c s' => String c EmptyString :: chars s'
  end.

(** *** JSON values as [json.load] builds them

    Numbers with a fraction and nested objects, which none of the modelled
    functions reads, are left out. *)

Inductive value : Type :=
  | VNone
  | VBool (b : bool)
  | VInt (n : Z)
  | VStr (s : string)
  | VList (xs : list value).

Definition quote_single : ascii := Ascii.ascii_of_N 39.
Definition quote_double : ascii := Ascii.ascii_of_N 34.
Definition backslash : ascii := Ascii.ascii_of_N 92.

Definition hex_digit (n : N) : ascii :=
  if (n <? 10)%N then Ascii.ascii_of_N (48 + n) else Ascii.ascii_of_N (87 + n).

Fixpoint has_char (q : ascii) (s : string) : bool :=
  match s with
  | EmptyString => false
  | String c s' => bool_decide (c = q) || has_char q s'
  end.

(** One character of [repr(s)] for the quote [q] in use. *)
Definition repr_char (q c : ascii) : string :=
  let n := Ascii.N_of_ascii c in
  if bool_decide (c = q) || bool_decide (c = backslash) then
    String backslash (String c EmptyString)
  else if (n =? 9)%N then String backslash "t"
  else if (n =? 10)%N then String backslash "n"
  else if (n =? 13)%N then String backslash "r"
  else if (n <? 32)%N || (n =? 127)%N then
    String backslash (String "x" (String (hex_digit (n / 16))
      (String (hex_digit (n mod 16)) EmptyString)))
  else String c EmptyString.

Fixpoint repr_chars (q : ascii) (s : string) : string :=
  match s with
  | EmptyString => EmptyString
  | String c s' => repr_char q c +:+ repr_chars q s'
  end.

(** [repr] of a [str]: single quotes unless the string has a single quote
    and no double quote. *)
Definition repr_str (s : string) : string :=
  let q := if has_char quote_single s && negb (has_char quote_double s)
           then quote_double else quote_single in
  String q (repr_chars q s) +:+ String q EmptyString.

Fixpoint repr (v : value) : string :=
  match v with
  | VNone => "None"
  | VBool true => "True"
  | VBool false => "False"
  | VInt n => pretty n
  | VStr s => repr_str s
  | VList xs => "[" +:+ join ", " (List.map repr xs) +:+ "]"
  end.

(** [str(v)], which is what an f-string field [{v}] renders. *)
Definition str (v : value) : string :=
  match v with
  | VStr s => s
  | _ => repr v
  end.

(** The items of [v] when they are all strings. *)
Fixpoint all_strings (xs : list value) : result (list string) :=
  match xs with
  | [] => Ok []
  | VStr s :: xs' => ss ← all_strings xs'; Ok (s :: ss)
  | _ :: _ => Raise TypeError
  end.

(** [sep.join(v)] for an arbitrary value: a list must hold strings only, a
    string is iterated by character, anything else is not iterable. *)
Definition join_value (sep : string) (v : value) : result string :=
  match v with
  | VList xs => ss ← all_strings xs; Ok (join sep ss)
  | VStr s => Ok (join sep (chars s))
  | _ => Raise TypeError
  end.

(** *** Lists *)

(** [xs[:k]]: a negative [k] counts from the end. *)
Definition slice_to {A} (xs : list A) (k : Z) : list A :=
  if (0 <=? k)%Z then take (Z.to_nat k) xs
  else take (Z.to_nat (Z.of_nat (length xs) + k)) xs.

(** Insertion of [x] behind every element it is not smaller than. *)
Fixpoint insert_by {A} (lt : A → A → bool) (x : A) (xs : list A) : list A :=
  match xs with
  | [] => [x]
  | y :: ys => if lt x y then x :: y :: ys else y :: insert_by lt x ys
  end.

(** A stable sort that only uses [<], as [list.sort] does. *)
Definition stable_sort {A} (lt : A → A → bool) (xs : list A) : list A :=
  foldl (λ acc x, insert_by lt x acc) [] xs.

(** [xs.sort(key=key, reverse=descending)].  With [reverse=True] the list
    is reversed, sorted and reversed again, which is how CPython keeps the
    descending sort stable. *)
Definition sort_by {A K} (key : A → K) (lt : K → K → bool)
    (descending : bool) (xs : list A) : list A :=
  let lt' := λ a b, lt (key a) (key b) in
  if descending then reverse (stable_sort lt' (reverse xs))
  else stable_sort lt' xs.

End Py.

Import Py.

(** ** The building-code database (code_database.py) *)

Module CodeDatabase.

(** One entry of codes.json: a JSON object. *)
Abbreviation record := (gmap string value).

(** [code.get(key) != s] for a [str] argument [s]: only a string value with
    the same characters is equal to it; an absent key reads as [None]. *)
Definition get_ne (code : record) (key : string) (s : string) : bool :=
  match code !! key with
  | Some (VStr t) => negb (bool_decide (t = s))
  | _ => true
  end.

(** Truthiness of an [Optional[str]] argument. *)
Definition truthy_str (o : option string) : bool :=
  match o with
  | None => false
  | Some s => negb (bool_decide (s = ""))
  end.

(** Lines 61-65: the lowercased f-string of title, summary and the
    space-joined questions. *)
Definition searchable_text (code : record) : result string :=
  let title := str (default (VStr "") (code !! "title")) in
  let summary := str (default (VStr "") (code !! "summary")) in
  questions ←
    join_value " " (default (VList []) (code !! "common_questions"));
  Ok (lower (title +:+ " " +:+ summary +:+ " " +:+ questions)).

(** Lines 60 and 68-70: the counting loop over the words of the query. *)
Definition count_matching (words : list string) (searchable : string) : Z :=
  foldl (λ (score : Z) word,
           if contains searchable word then (score + 1)%Z else score)
        0%Z words.

(** The dictionary [{**code, 'relevance_score': score}]. *)
Definition with_score (code : record) (score : Z) : record :=
  <["relevance_score" := VInt score]> code.

(** Lines 50-76: one iteration of the loop, [results] being the list built
    so far. *)
Definition search_body (query_lower jurisdiction : string)
    (code_type : option string) (results : list record) (code : record)
    : result (list record) :=
  if get_ne code "jurisdiction" jurisdiction then Ok results
  else if truthy_str code_type
          && get_ne code "category" (default "" code_type) then Ok results
  else
    searchable ← searchable_text code;
    let score := count_matching (split query_lower) searchable in
    if (0 <? score)%Z then Ok (results ++ [with_score code score])
    else Ok results.

(** The sort key [x['relevance_score']] of a result. *)
Definition relevance_score (r : record) : Z :=
  match r !! "relevance_score" with
  | Some (VInt n) => n
  | _ => 0
  end.

(** Lines 47-81 on the list [self.codes]. *)
Definition search_codes (codes : list record) (query jurisdiction : string)
    (code_type : option string) (top_k : Z) : result (list record) :=
  let query_lower := lower query in
  results ←
    for_each (search_body query_lower jurisdiction code_type) [] codes;
  let results := sort_by relevance_score Z.ltb true results in
  Ok (slice_to results top_k).

(** Lines 89-94. *)
Fixpoint get_section_codes (codes : list record)
    (section_reference jurisdiction : string) : option record :=
  match codes with
  | [] => None
  | code :: codes' =>
      if negb (get_ne code "code_ref" section_reference)
         && negb (get_ne code "jurisdiction" jurisdiction)
      then Some code
      else get_section_codes codes' section_reference jurisdiction
  end.

(** The object: its two attributes. *)
Record t : Type := Build {
  data_file : string;
  codes : list record;
}.

(** The part of the outside world [__init__] touches: for every existing
    path what [json.load] makes of its content ([None] when the content is
    not JSON), and the lines printed so far. *)
Record world : Type := World {
  files : gmap string (option (list record));
  stdout : list string;
}.

(** Lines 24-33. *)
Definition load_codes (self : t) (w : world) : result t * world :=
  match files w !! data_file self with
  | Some (Some loaded) => (Ok (Build (data_file self) loaded), w)
  | Some None => (Raise JSONDecodeError, w)
  | None =>
      (Ok (Build (data_file self) []),
       World (files w)
         (stdout w ++
          ["Warning: Code database not found at " +:+ data_file self;
           "Starting with empty database. Add codes to codes.json"]))
  end.

(** Lines 14-22; [module_dir] is the directory of the module, where the
    default codes.json is looked for. *)
Definition init (module_dir : string) (data_file : option string) (w : world)
    : result t * world :=
  let data_file := default (module_dir +:+ "/codes.json") data_file in
  load_codes (Build data_file []) w.

(** The methods, returning their result and the object after the call. *)
Definition search (self : t) (query : string) (jurisdiction : string)
    (code_type : option string) (top_k : Z) : result (list record) * t :=
  (search_codes (codes self) query jurisdiction code_type top_k, self).

Definition get_section (self : t) (section_reference jurisdiction : string)
    : option record * t :=
  (get_section_codes (codes self) section_reference jurisdiction, self).

(** Default arguments of [search] and [get_section]. *)
Definition default_jurisdiction : string := "National".
Definition default_top_k : Z := 3.

(** *** [get_categories] (lines 96-117) *)

(** [hash(v)] is defined: a list is not hashable. *)
Definition hashable (v : value) : bool :=
  match v with VList _ => false | _ => true end.

(** [a == b] on two hashable values, which is when they are the same
    dictionary key: [True] and [False] are the ints 1 and 0. *)
Definition key_eq (a b : value) : bool :=
  match a, b with
  | VNone, VNone => true
  | VStr s, VStr t => bool_decide (s = t)
  | VBool x, VBool y => bool_decide (x = y)
  | VInt x, VInt y => bool_decide (x = y)
  | VBool x, VInt y | VInt y, VBool x =>
      bool_decide (y = if x then 1%Z else 0%Z)
  | _, _ => false
  end.

(** [bool(v)]. *)
Definition truthy_value (v : value) : bool :=
  match v with
  | VNone => false
  | VBool b => b
  | VInt n => negb (bool_decide (n = 0%Z))
  | VStr s => negb (bool_decide (s = ""))
  | VList xs => match xs with [] => false | _ => true end
  end.

(** The inner dictionary [{'count': ..., 'sample_questions': [...]}]. *)
Record category_info : Type := CategoryInfo {
  count : Z;
  sample_questions : list value;
}.

(** The dictionary [categories], in insertion order. *)
Abbreviation categories := (list (value * category_info)).

(** [categories[k]], if [k in categories]. *)
Fixpoint lookup_key (cs : categories) (k : value) : option category_info :=
  match cs with
  | [] => None
  | (k', info) :: cs' => if key_eq k' k then Some info else lookup_key cs' k
  end.

(** An in-place change of [categories[k]]. *)
Fixpoint update_key (f : category_info → category_info) (cs : categories)
    (k : value) : categories :=
  match cs with
  | [] => []
  | (k', info) :: cs' =>
      if key_eq k' k then (k', f info) :: cs'
      else (k', info) :: update_key f cs' k
  end.

(** The items [extend] takes from [questions[:n]]: a list gives its first
    [n] items, a string the characters of its first [n] characters, and
    anything else cannot be sliced. *)
Definition sliced_items (questions : value) (n : nat) : result (list value) :=
  match questions with
  | VList xs => Ok (take n xs)
  | VStr s => Ok (VStr <$> take n (chars s))
  | _ => Raise TypeError
  end.

(** Lines 101-115: one iteration. *)
Definition get_categories_body (cs : categories) (code : record)
    : result categories :=
  let category := default (VStr "general") (code !! "category") in
  if hashable category then
    let cs :=
      match lookup_key cs category with
      | Some _ => cs
      | None => cs ++ [(category, CategoryInfo 0 [])]
      end in
    let cs :=
      update_key (λ info, CategoryInfo (count info + 1) (sample_questions info))
                 cs category in
    let questions := default (VList []) (code !! "common_questions") in
    let have :=
      from_option (λ info, length (sample_questions info)) 0%nat
                  (lookup_key cs category) in
    if truthy_value questions && (have <? 3)%nat then
      items ← sliced_items questions (3 - have);
      Ok (update_key
            (λ info, CategoryInfo (count info) (sample_questions info ++ items))
            cs category)
    else Ok cs
  else Raise TypeError.

Definition get_categories_codes (codes : list record) : result categories :=
  for_each get_categories_body [] codes.

Definition get_categories (self : t) : result categories * t :=
  (get_categories_codes (codes self), self).

End CodeDatabase.

(** ** Python numbers: [int] and [float] *)

Module Num.

Inductive num : Type :=
  | Int (n : Z)
  | Float (f : float).

(** Nearest binary64 value of [m * 2^e], ties to even; an infinity when the
    magnitude is out of range. *)
Definition round_float (m e : Z) : float :=
  SF2Prim (binary_normalize prec emax m e false).

(** [float(n)]: "int too large to convert to float" on overflow. *)
Definition of_int (n : Z) : result float :=
  let f := round_float n 0 in
  if is_infinity f then Raise OverflowError else Ok f.

Definition to_float (x : num) : result float :=
  match x with
  | Int n => of_int n
  | Float f => Ok f
  end.

(** [x * y] and [x + y]: exact on two ints, binary64 otherwise. *)
Definition mul (x y : num) : result num :=
  match x, y with
  | Int a, Int b => Ok (Int (a * b))
  | _, _ => a ← to_float x; b ← to_float y; Ok (Float (a * b)%float)
  end.

Definition add (x y : num) : result num :=
  match x, y with
  | Int a, Int b => Ok (Int (a + b))
  | _, _ => a ← to_float x; b ← to_float y; Ok (Float (a + b)%float)
  end.

Definition neg (x : num) : num :=
  match x with
  | Int a => Int (- a)
  | Float f => Float (- f)%float
  end.

(** [a / b] on two ints: the binary64 value nearest to the exact quotient.
    The quotient is taken with 64 or more significant bits and made odd when
    inexact, so that the final rounding is the rounding of the exact value. *)
Definition int_truediv (a b : Z) : result float :=
  if (b =? 0)%Z then Raise ZeroDivisionError
  else
    let negate := xorb (a <? 0)%Z (b <? 0)%Z in
    if (a =? 0)%Z then Ok (if negate then (- 0)%float else 0%float)
    else
      let k := Z.max 0 (64 + Z.log2 (Z.abs b) - Z.log2 (Z.abs a)) in
      let n := (Z.abs a * 2 ^ k)%Z in
      let q := (n / Z.abs b)%Z in
      let q := if (n mod Z.abs b =? 0)%Z then q else Z.lor q 1 in
      let f := round_float (if negate then - q else q)%Z (- k) in
      if is_infinity f then Raise OverflowError else Ok f.

(** [x / y]. *)
Definition truediv (x y : num) : result num :=
  match x, y with
  | Int a, Int b => f ← int_truediv a b; Ok (Float f)
  | _, _ =>
      a ← to_float x; b ← to_float y;
      if (b =? 0)%float then Raise ZeroDivisionError
      else Ok (Float (a / b)%float)
  end.

(** [math.ceil(x)]: always an [int]. *)
Definition ceil (x : num) : result Z :=
  match x with
  | Int n => Ok n
  | Float f =>
      match Prim2SF f with
      | S754_zero _ => Ok 0%Z
      | S754_infinity _ => Raise OverflowError
      | S754_nan => Raise ValueError
      | S754_finite s m e =>
          let v := if s then Z.neg m else Z.pos m in
          if (0 <=? e)%Z then Ok (v * 2 ^ e)%Z
          else Ok (- ((- v) / 2 ^ (- e)))%Z
      end
  end.

(** Exact comparison of a float with an int; [None] for a NaN. *)
Definition compare_float_int (f : float) (n : Z) : option comparison :=
  match Prim2SF f with
  | S754_zero _ => Some (0 ?= n)%Z
  | S754_infinity s => Some (if s then Lt else Gt)
  | S754_nan => None
  | S754_finite s m e =>
      let v := if s then Z.neg m else Z.pos m in
      if (0 <=? e)%Z then Some (v * 2 ^ e ?= n)%Z
      else Some (v ?= n * 2 ^ (- e))%Z
  end.

Definition compare (x y : num) : option comparison :=
  match x, y with
  | Int a, Int b => Some (a ?= b)%Z
  | Float f, Float g =>
      match (f ?= g)%float with
      | FEq => Some Eq
      | FLt => Some Lt
      | FGt => Some Gt
      | FNotComparable => None
      end
  | Float f, Int n => compare_float_int f n
  | Int n, Float f => CompOpp <$> compare_float_int f n
  end.

(** [x < y], [x > y] and [x == y]. *)
Definition lt (x y : num) : bool :=
  match compare x y with Some Lt => true | _ => false end.
Definition gt (x y : num) : bool := lt y x.
Definition eq (x y : num) : bool :=
  match compare x y with Some Eq => true | _ => false end.

(** [bool(x)]. *)
Definition truthy (x : num) : bool := negb (eq x (Int 0)).

End Num.

(** ** The material calculators (calculators.py) *)

Module MaterialCalculator.
Import Num.

(** The dictionary [calculate_wire_length] returns. *)
Record WireLength : Type := {
  base_feet : num;
  with_waste : num;
  recommended_feet : Z;
  wire_waste_factor : num;
  wire_note : string;
}.

Definition default_wire_waste_factor : num := Float 0.15.

(** Lines 27-40. *)
Definition calculate_wire_length (circuit_length_feet num_circuits
    waste_factor : num) : result WireLength :=
  doubled ← mul circuit_length_feet (Int 2);
  total_feet ← mul doubled num_circuits;
  overage ← add (Int 1) waste_factor;
  with_waste ← mul total_feet overage;
  spools ← truediv with_waste (Int 25);
  spools ← ceil spools;
  let recommended_feet := (spools * 25)%Z in
  Ok {| base_feet := total_feet;
        with_waste := with_waste;
        recommended_feet := recommended_feet;
        wire_waste_factor := waste_factor;
        wire_note := "Buying " +:+ pretty recommended_feet +:+
          "ft gives you buffer for mistakes and future repairs" |}.

(** The dictionary [calculate_tile_needed] returns, without the two entries
    that render a float in decimal ([tile_size], and [total_coverage_sq_ft],
    which is [round(total_coverage, 1)]). *)
Record TileNeeded : Type := {
  area_sq_ft : num;
  tiles_needed : Z;
  cases_needed : Z;
  total_tiles : Z;
  tile_waste_factor : num;
  tile_note : string;
}.

Definition default_tile_size_inches : num * num := (Int 12, Int 12).
Definition default_tile_waste_factor : num := Float 0.10.

(** Lines 96-121.  [total_coverage] is evaluated as in the source, since its
    product can raise. *)
Definition calculate_tile_needed (area_sq_ft : num)
    (tile_size_inches : num * num) (waste_factor : num)
    : result TileNeeded :=
  tile_width_ft ← truediv (tile_size_inches.1) (Int 12);
  tile_height_ft ← truediv (tile_size_inches.2) (Int 12);
  tile_area_sq_ft ← mul tile_width_ft tile_height_ft;
  base_tiles ← truediv area_sq_ft tile_area_sq_ft;
  base_tiles ← ceil base_tiles;
  overage ← add (Int 1) waste_factor;
  total_tiles ← mul (Int base_tiles) overage;
  total_tiles ← ceil total_tiles;
  let tiles_per_case := 10%Z in
  cases_needed ← truediv (Int total_tiles) (Int tiles_per_case);
  cases_needed ← ceil cases_needed;
  total_coverage ← mul (Int (cases_needed * tiles_per_case)) tile_area_sq_ft;
  Ok {| area_sq_ft := area_sq_ft;
        tiles_needed := total_tiles;
        cases_needed := cases_needed;
        total_tiles := (cases_needed * tiles_per_case)%Z;
        tile_waste_factor := waste_factor;
        tile_note := "Ordering " +:+ pretty cases_needed +:+
          " cases gives you " +:+ pretty (total_tiles - base_tiles)%Z +:+
          " extra tiles for cuts and repairs" |}.

(** [round(x, ndigits)] on a float, for [0 <= ndigits]: the exact value is
    rounded, ties to even, to [ndigits] decimals, and the decimal obtained is
    converted back to the nearest float. *)
Definition round_half_even (n d : Z) : Z :=
  let q := (n / d)%Z in
  let r := (n mod d)%Z in
  if (2 * r <? d)%Z then q
  else if (d <? 2 * r)%Z then (q + 1)%Z
  else if Z.even q then q else (q + 1)%Z.

Definition round_digits (x : float) (ndigits : Z) : result float :=
  match Prim2SF x with
  | S754_finite s m e =>
      let v := if s then Z.neg m else Z.pos m in
      let p := (10 ^ ndigits)%Z in
      let n := if (0 <=? e)%Z then (v * 2 ^ e * p)%Z
               else round_half_even (v * p) (2 ^ (- e)) in
      if (n =? 0)%Z then Ok (if s then (- 0)%float else 0%float)
      else int_truediv n p
  | _ => Ok x
  end.

(** The dictionary [calculate_paint_needed] returns; [coats] and
    [coverage_per_gallon] are ints, as annotated. *)
Record PaintNeeded : Type := {
  paint_area_sq_ft : num;
  paint_coats : Z;
  total_area_to_cover : num;
  gallons_needed : float;
  gallons_to_buy : Z;
  paint_coverage_per_gallon : Z;
  paint_note : string;
}.

Definition default_coats : Z := 2.
Definition default_coverage_per_gallon : Z := 350.

(** Lines 136-151. *)
Definition calculate_paint_needed (area_sq_ft : num) (coats
    coverage_per_gallon : Z) : result PaintNeeded :=
  total_area ← mul area_sq_ft (Int coats);
  gallons ← truediv total_area (Int coverage_per_gallon);
  gallons ← to_float gallons;
  gallons_to_buy ← ceil (Float gallons);
  rounded ← round_digits gallons 2;
  Ok {| paint_area_sq_ft := area_sq_ft;
        paint_coats := coats;
        total_area_to_cover := total_area;
        gallons_needed := rounded;
        gallons_to_buy := gallons_to_buy;
        paint_coverage_per_gallon := coverage_per_gallon;
        paint_note := "Buy " +:+ pretty gallons_to_buy +:+ " gallon(s) for " +:+
          pretty coats +:+ " coats" |}.

(** Lines 230-236: the inner function [round_to_coil], on an int. *)
Definition round_to_coil (feet : Z) : result Z :=
  if (feet <=? 100)%Z then Ok 100%Z
  else if (feet <=? 300)%Z then Ok 300%Z
  else
    coils ← truediv (Int feet) (Int 300);
    coils ← ceil coils;
    Ok (coils * 300)%Z.

(** One of the two inner dictionaries of [calculate_pex_pipe]. *)
Record PexPipe : Type := {
  feet_needed : Z;
  feet_to_buy : Z;
  pipe_size : string;
  pipe_color : string;
}.

Record PexNeeded : Type := {
  system_type : string;
  fixtures : num;
  hot_water_pipe : PexPipe;
  cold_water_pipe : PexPipe;
  pex_note : string;
}.

Definition default_avg_distance_per_fixture : num := Int 30.

(** Lines 213-257. *)
Definition calculate_pex_pipe (num_fixtures avg_distance_per_fixture : num)
    (manifold_system : bool) : result PexNeeded :=
  feet ←
    (if manifold_system then
       hot_water_fixtures ← mul num_fixtures (Float 0.6);
       hot_water_fixtures ← ceil hot_water_fixtures;
       let cold_water_fixtures := num_fixtures in
       hot_pipe_feet ← mul (Int hot_water_fixtures) avg_distance_per_fixture;
       cold_pipe_feet ← mul cold_water_fixtures avg_distance_per_fixture;
       Ok (hot_pipe_feet, cold_pipe_feet)
     else
       hot ← mul num_fixtures (Float 0.6);
       hot ← mul hot avg_distance_per_fixture;
       hot_pipe_feet ← mul hot (Float 0.7);
       cold ← mul num_fixtures avg_distance_per_fixture;
       cold_pipe_feet ← mul cold (Float 0.7);
       Ok (hot_pipe_feet, cold_pipe_feet));
  hot_total ← mul feet.1 (Float 1.2);
  hot_total ← ceil hot_total;
  cold_total ← mul feet.2 (Float 1.2);
  cold_total ← ceil cold_total;
  hot_to_buy ← round_to_coil hot_total;
  cold_to_buy ← round_to_coil cold_total;
  Ok {| system_type :=
          if manifold_system then "Manifold (home-run)"
          else "Trunk-and-branch";
        fixtures := num_fixtures;
        hot_water_pipe :=
          {| feet_needed := hot_total; feet_to_buy := hot_to_buy;
             pipe_size := "1/2 inch PEX"; pipe_color := "Red" |};
        cold_water_pipe :=
          {| feet_needed := cold_total; feet_to_buy := cold_to_buy;
             pipe_size := "1/2 inch PEX"; pipe_color := "Blue" |};
        pex_note := "Also budget for manifold, fittings, and crimp rings. Consider 3/4 inch for main lines." |}.

End MaterialCalculator.

(** ** The Home Depot supplier (suppliers/home_depot.py) *)

Module HomeDepotSupplier.
Import Num.

(** The dataclass of base_supplier.py. *)
Record Product : Type := {
  id : string;
  name : string;
  category : string;
  subcategory : string;
  price : num;
  currency : string;
  supplier : string;
  in_stock : bool;
  quantity_available : option Z;
  specifications : gmap string value;
  url : option string;
  image_url : option string;
  rating : option num;
  review_count : option Z;
  store_location : option string;
  distance_miles : option num;
  manufacturer : option string;
}.

(** The two assignments of lines 299-300 on one object. *)
Definition locate (p : Product) : Product :=
  {| id := id p; name := name p; category := category p;
     subcategory := subcategory p; price := price p; currency := currency p;
     supplier := supplier p; in_stock := in_stock p;
     quantity_available := quantity_available p;
     specifications := specifications p; url := url p;
     image_url := image_url p; rating := rating p;
     review_count := review_count p;
     store_location := Some "Brighton, MA";
     distance_miles := Some (Float 2.3);
     manufacturer := manufacturer p |}.

(** The supplier object.  [mock_products] is the list of [Product] objects
    built once by [__init__]; a position in it stands for the reference to
    the object stored there. *)
Record t : Type := Build {
  api_key : option string;
  supplier_name : string;
  mock_products : list Product;
}.

Definition truthy_str (o : option string) : bool :=
  match o with
  | None => false
  | Some s => negb (bool_decide (s = ""))
  end.

Definition truthy_num (o : option num) : bool :=
  match o with
  | None => false
  | Some x => truthy x
  end.

(** Line 293. *)
Definition searchable (p : Product) : string :=
  lower (name p +:+ " " +:+ category p +:+ " " +:+ subcategory p).

(** Lines 283-302: one iteration on the object at position [i].  The state
    is the objects and the references collected so far. *)
Definition search_body (query_lower : string) (category_arg zip_code :
    option string) (max_price : option num)
    (st : list Product * list nat) (i : nat) : list Product * list nat :=
  match st.1 !! i with
  | None => st
  | Some product =>
      if truthy_str category_arg
         && negb (bool_decide (category product = default "" category_arg))
      then st
      else if truthy_num max_price
              && gt (price product) (default (Int 0) max_price)
      then st
      else if existsb (contains (searchable product)) (split query_lower)
      then
        let objects :=
          if truthy_str zip_code then <[i := locate product]> st.1
          else st.1 in
        (objects, st.2 ++ [i])
      else st
  end.

(** The sort key [(p.price, -p.rating if p.rating else 0)]. *)
Definition sort_key (p : Product) : num * num :=
  (price p, if truthy_num (rating p) then neg (default (Int 0) (rating p))
            else Int 0).

(** [<] on two pairs: the first components that differ decide. *)
Definition pair_lt (a b : num * num) : bool :=
  if negb (eq a.1 b.1) then lt a.1 b.1
  else if negb (eq a.2 b.2) then lt a.2 b.2
  else false.

(** The key of the object a reference points to. *)
Definition key_at (objects : list Product) (i : nat) : option (num * num) :=
  sort_key <$> objects !! i.

Definition ref_lt (a b : option (num * num)) : bool :=
  match a, b with
  | Some a, Some b => pair_lt a b
  | _, _ => false
  end.

(** Lines 280-307 (the simulated delay of line 278 has no effect on the
    data): the references returned and the supplier after the call. *)
Definition search_products (self : t) (query : string)
    (category_arg zip_code : option string) (max_price : option num)
    (limit : Z) : list nat * t :=
  let query_lower := lower query in
  let '(objects, results) :=
    foldl (search_body query_lower category_arg zip_code max_price)
          (mock_products self, [])
          (seq 0 (length (mock_products self))) in
  let results := sort_by (key_at objects) ref_lt false results in
  (slice_to results limit, Build (api_key self) (supplier_name self) objects).

(** The objects a list of references denotes. *)
Definition deref (self : t) (refs : list nat) : list Product :=
  omap (λ i, mock_products self !! i) refs.

Definition default_limit : Z := 10.

(** Lines 313-317: the reference to the first object with the given id. *)
Definition get_product_details (self : t) (product_id : string)
    : option nat :=
  fst <$> list_find (λ p, id p = product_id) (mock_products self).

(** One entry of the list [stores] of [check_availability]. *)
Record store_stock : Type := {
  store_name : string;
  store_address : string;
  store_distance_miles : num;
  store_quantity : option Z;
  store_phone : string;
}.

(** The dictionary [check_availability] returns: the error, or the stock. *)
Inductive availability : Type :=
  | AvailabilityError (error : string)
  | Availability (product_id : string) (available : bool)
      (stores : list store_stock).

(** Line 348: [max(0, q - 20) if q else 0]. *)
Definition second_store_quantity (q : option Z) : Z :=
  match q with
  | None => 0
  | Some n => if bool_decide (n = 0%Z) then 0%Z else Z.max 0 (n - 20)
  end.

(** Lines 327-352 (the simulated delays have no effect on the data). *)
Definition check_availability (self : t) (product_id zip_code : string)
    : availability :=
  match get_product_details self product_id
        ≫= (λ i, mock_products self !! i) with
  | None => AvailabilityError "Product not found"
  | Some product =>
      Availability product_id (in_stock product)
        [ {| store_name := "Home Depot - Brighton";
             store_address := "201 Everett Ave, Brighton, MA 02134";
             store_distance_miles := Float 2.3;
             store_quantity := quantity_available product;
             store_phone := "(617) 555-0123" |};
          {| store_name := "Home Depot - Somerville";
             store_address := "75 Mystic Ave, Somerville, MA 02145";
             store_distance_miles := Float 3.8;
             store_quantity :=
               Some (second_store_quantity (quantity_available product));
             store_phone := "(617) 555-0456" |} ]
  end.

End HomeDepotSupplier.

(** ** The product database (product_database.py) *)

Module ProductDatabase.
Import Num.

(** The object: the dictionary [self.suppliers], in insertion order.  A
    [Product] object is referred to by the position of its supplier and its
    position in the catalogue of that supplier. *)
Record t : Type := Build {
  suppliers : list (string * HomeDepotSupplier.t);
}.

Abbreviation ref := (nat * nat)%type.

Definition product_at (self : t) (r : ref) : option HomeDepotSupplier.Product :=
  suppliers self !! r.1 ≫= (λ s, HomeDepotSupplier.mock_products s.2 !! r.2).

(** [s.strip()]: whitespace removed at both ends. *)
Fixpoint lstrip (s : string) : string :=
  match s with
  | EmptyString => EmptyString
  | String c s' => if is_space c then lstrip s' else s
  end.

Definition strip (s : string) : string :=
  String.rev (lstrip (String.rev (lstrip s))).

(** Line 73. *)
Definition name_key (name : string) : string := strip (lower name).

(** Lines 72-76: one iteration of [_deduplicate_products], on the set
    [seen_names] and the list [unique]. *)
Definition deduplicate_body {A} (name_of : A → string)
    (st : gset string * list A) (product : A) : gset string * list A :=
  let key := name_key (name_of product) in
  if bool_decide (key ∈ st.1) then st
  else ({[ key ]} ∪ st.1, st.2 ++ [product]).

(** Lines 65-78, for objects whose name [name_of] reads. *)
Definition deduplicate_products {A} (name_of : A → string)
    (products : list A) : list A :=
  (foldl (deduplicate_body name_of) (∅, []) products).2.

Definition name_at (self : t) (r : ref) : string :=
  from_option HomeDepotSupplier.name "" (product_at self r).

Definition key_at (self : t) (r : ref) : option (num * num) :=
  HomeDepotSupplier.sort_key <$> product_at self r.

(** The search of supplier [j] and the collection of its result (lines
    35-43 and 49-51).  The suppliers are distinct objects, so the order in
    which their searches run does not matter. *)
Definition search_supplier (query : string) (category_arg zip_code :
    option string) (max_price : option num) (limit : Z)
    (st : list (string * HomeDepotSupplier.t) * list ref) (j : nat)
    : list (string * HomeDepotSupplier.t) * list ref :=
  match st.1 !! j with
  | None => st
  | Some (supplier_name, supplier) =>
      let found :=
        HomeDepotSupplier.search_products supplier query category_arg
          zip_code max_price limit in
      (<[j := (supplier_name, found.2)]> st.1,
       st.2 ++ ((λ i, (j, i)) <$> found.1))
  end.

Definition default_limit_per_supplier : Z := 5.

(** Lines 34-62. *)
Definition search_all_suppliers (self : t) (query : string)
    (category_arg zip_code : option string) (max_price : option num)
    (limit_per_supplier : Z) : list ref * t :=
  let searched :=
    foldl (search_supplier query category_arg zip_code max_price
             limit_per_supplier)
          (suppliers self, []) (seq 0 (length (suppliers self))) in
  let self' := Build searched.1 in
  let unique_products := deduplicate_products (name_at self') searched.2 in
  (sort_by (key_at self') HomeDepotSupplier.ref_lt false unique_products,
   self').

(** [self.suppliers[supplier]] when [supplier in self.suppliers]. *)
Definition supplier_named (self : t) (supplier : string)
    : option (nat * (string * HomeDepotSupplier.t)) :=
  list_find (λ s, s.1 = supplier) (suppliers self).

(** Lines 88-93: the first supplier, from position [j] on, that knows the
    product. *)
Fixpoint first_with_product (ss : list (string * HomeDepotSupplier.t))
    (j : nat) (product_id : string) : option ref :=
  match ss with
  | [] => None
  | s :: ss' =>
      match HomeDepotSupplier.get_product_details s.2 product_id with
      | Some i => Some (j, i)
      | None => first_with_product ss' (S j) product_id
      end
  end.

(** Lines 85-95. *)
Definition get_product_by_id (self : t) (product_id : string)
    (supplier : option string) : option ref :=
  match
    (if HomeDepotSupplier.truthy_str supplier
     then supplier_named self (default "" supplier) else None)
  with
  | Some (j, s) =>
      (λ i, (j, i)) <$> HomeDepotSupplier.get_product_details s.2 product_id
  | None => first_with_product (suppliers self) 0 product_id
  end.

(** [x <= y]. *)
Definition le (x y : num) : bool :=
  match compare x y with Some Lt | Some Eq => true | _ => false end.

Definition price_at (self : t) (r : ref) : option num :=
  HomeDepotSupplier.price <$> product_at self r.

Definition price_lt (a b : option num) : bool :=
  match a, b with
  | Some a, Some b => lt a b
  | _, _ => false
  end.

(** Line 122: [min_price <= p.price <= max_price] on the object [r]. *)
Definition in_budget (self : t) (min_price max_price : num) (r : ref)
    : bool :=
  match price_at self r with
  | Some p => le min_price p && le p max_price
  | None => false
  end.

(** Line 126: [p.id != product.id] on the object [r]. *)
Definition other_id (self : t) (product_id : string) (r : ref) : bool :=
  match product_at self r with
  | Some p => negb (bool_decide (HomeDepotSupplier.id p = product_id))
  | None => true
  end.

(** Lines 110-130, for the original [product] and a budget that is [None]
    or a pair. *)
Definition find_alternatives (self : t) (product : HomeDepotSupplier.Product)
    (budget_range : option (num * num)) : list ref * t :=
  let found :=
    search_all_suppliers self
      (HomeDepotSupplier.category product +:+ " " +:+
       HomeDepotSupplier.subcategory product)
      (Some (HomeDepotSupplier.category product)) None None 10 in
  let self' := found.2 in
  let alternatives := found.1 in
  let alternatives :=
    match budget_range with
    | Some (min_price, max_price) =>
        filter (λ r, in_budget self' min_price max_price r) alternatives
    | None => alternatives
    end in
  let alternatives :=
    filter (λ r, other_id self' (HomeDepotSupplier.id product) r)
           alternatives in
  (sort_by (price_at self') price_lt false alternatives, self').

(** [a == b] on values. *)
Fixpoint value_eq (a b : value) : bool :=
  match a, b with
  | VList xs, VList ys =>
      (fix go (xs ys : list value) : bool :=
         match xs, ys with
         | [], [] => true
         | x :: xs', y :: ys' => value_eq x y && go xs' ys'
         | _, _ => false
         end) xs ys
  | VList _, _ | _, VList _ => false
  | _, _ => CodeDatabase.key_eq a b
  end.

(** The dictionary [compatibility]. *)
Record compatibility : Type := Compatibility {
  compatible : bool;
  confidence : string;
  notes : list string;
}.

(** Lines 152-176: the two rules on the two products found. *)
Definition compatibility_of (product1 product2 : HomeDepotSupplier.Product)
    : compatibility :=
  let name1 := HomeDepotSupplier.name product1 in
  let name2 := HomeDepotSupplier.name product2 in
  let c := Compatibility false "low" [] in
  let c :=
    if contains (lower name1) "pex" || contains (lower name2) "pex" then
      if contains (lower (name1 +:+ name2)) "sharkbite" then
        Compatibility true "high"
          (notes c ++
           ["SharkBite fittings work with PEX-A, PEX-B, PEX-C, copper, and CPVC"])
      else c
    else c in
  if bool_decide (HomeDepotSupplier.category product1 = "electrical")
     && bool_decide (HomeDepotSupplier.category product2 = "electrical")
  then
    let spec1 := HomeDepotSupplier.specifications product1 in
    let spec2 := HomeDepotSupplier.specifications product2 in
    if value_eq (default VNone (spec1 !! "voltage"))
                (default VNone (spec2 !! "voltage"))
    then
      if value_eq (default VNone (spec1 !! "amperage"))
                  (default VNone (spec2 !! "amperage"))
      then
        Compatibility true "medium"
          (notes c ++
           ["Both rated for " +:+ str (default VNone (spec1 !! "voltage")) +:+
            "V and " +:+ str (default VNone (spec1 !! "amperage")) +:+ "A"])
      else c
    else c
  else c.

(** Lines 143-178: the error dictionary, or the verdict. *)
Definition check_compatibility (self : t) (product1_id product2_id : string)
    : string + compatibility :=
  match get_product_by_id self product1_id None ≫= product_at self,
        get_product_by_id self product2_id None ≫= product_at self with
  | Some product1, Some product2 => inr (compatibility_of product1 product2)
  | _, _ => inl "One or both products not found"
  end.

End ProductDatabase.

(** ** The search rule in the words of the specification *)

Module Spec.
Import CodeDatabase.

(** The attribute [key] of [code] is present and is the string [s]. *)
Definition attr_is (code : record) (key s : string) : bool :=
  match code !! key with
  | Some (VStr t) => bool_decide (t = s)
  | _ => false
  end.

(** Step 1: every provided filter, as an exact-equality test, combined by
    AND.  A code type is provided when it is a non-empty string. *)
Definition passes_filters (jurisdiction : string) (code_type : option string)
    (code : record) : bool :=
  attr_is code "jurisdiction" jurisdiction &&
  match code_type with
  | None => true
  | Some c => if bool_decide (c = "") then true else attr_is code "category" c
  end.

(** Steps 3 and 4: the number of tokens of the lowercased query, repeated
    tokens included, that occur as a substring of [text]. *)
Definition token_count (query text : string) : Z :=
  Z.of_nat (length (filter (λ w, contains text w) (split (lower query)))).

(** Steps 2 to 4 on one record: the record annotated with its score. *)
Definition scored (query : string) (code : record) : result record :=
  text ← searchable_text code;
  Ok (with_score code (token_count query text)).

Fixpoint map_result {A B} (f : A → result B) (xs : list A)
    : result (list B) :=
  match xs with
  | [] => Ok []
  | x :: xs' => y ← f x; ys ← map_result f xs'; Ok (y :: ys)
  end.

(** Steps 1 to 5: the records that pass the filters, scored, those of score
    0 left out, in collection order. *)
Definition matching (codes : list record) (query jurisdiction : string)
    (code_type : option string) : result (list record) :=
  rs ← map_result (scored query)
        (filter (λ c, passes_filters jurisdiction code_type c) codes);
  Ok (filter (λ r, (1 ≤ relevance_score r)%Z) rs).

(** Step 6: descending scores. *)
Definition by_score_desc (a b : record) : Prop :=
  (relevance_score b ≤ relevance_score a)%Z.

(** The records of one score, in the order of the list. *)
Definition with_score_eq (n : Z) (rs : list record) : list record :=
  filter (λ r, relevance_score r = n) rs.

(** The data model of the corpus: [common_questions], when present, is an
    array of strings. *)
Definition is_str (v : value) : bool :=
  match v with VStr _ => true | _ => false end.

Definition questions_well_typed (code : record) : bool :=
  match code !! "common_questions" with
  | None => true
  | Some (VList xs) => forallb is_str xs
  | Some _ => false
  end.


(** [get_exact]: the record has the reference and the jurisdiction asked. *)
Definition is_section (section_reference jurisdiction : string)
    (code : record) : bool :=
  attr_is code "code_ref" section_reference
  && attr_is code "jurisdiction" jurisdiction.

End Spec.

(** ** Notions the further properties are stated with *)

Module Derived.
Import Num.

(** [s.isascii()]: every character is below 128.  On such text [str.lower]
    lowers the letters A-Z one by one and [str.split] splits at the
    characters of [is_space]. *)
Definition is_ascii (c : ascii) : bool := (Ascii.N_of_ascii c <? 128)%N.

Fixpoint isascii (s : string) : bool :=
  match s with
  | EmptyString => true
  | String c s' => is_ascii c && isascii s'
  end.

(** The category [get_categories] files a record under. *)
Definition category_of (code : CodeDatabase.record) : value :=
  default (VStr "general") (code !! "category").

(** The questions a record contributes to the samples of its category: the
    items of a list, the characters of a string, nothing otherwise. *)
Definition question_items (code : CodeDatabase.record) : list value :=
  match default (VList []) (code !! "common_questions") with
  | VList xs => xs
  | VStr s => VStr <$> chars s
  | _ => []
  end.

(** The records filed under the string [k], in collection order. *)
Definition in_category (k : string) (codes : list CodeDatabase.record)
    : list CodeDatabase.record :=
  filter (λ c, CodeDatabase.key_eq (category_of c) (VStr k)) codes.

(** What [get_categories] reports for the records [filed] under one
    category: nothing when there is none, else their number and the first
    three of their questions. *)
Definition entry_of (filed : list CodeDatabase.record)
    : option CodeDatabase.category_info :=
  match filed with
  | [] => None
  | _ =>
      Some (CodeDatabase.CategoryInfo (Z.of_nat (length filed))
              (take 3 (filed ≫= question_items)))
  end.

(** Every key of the dictionary is a string. *)
Definition str_keys (cs : CodeDatabase.categories) : Prop :=
  Forall (λ e, ∃ k, e.1 = VStr k) cs.

(** The sum of the counts of a dictionary of categories. *)
Definition total_count (cs : CodeDatabase.categories) : Z :=
  foldr (λ e n, (CodeDatabase.count e.2 + n)%Z) 0%Z cs.

(** A record of the data model: its category, when it has one, is a
    string. *)
Definition string_category (code : CodeDatabase.record) : Prop :=
  ∃ k, category_of code = VStr k.

(** The three tests of [search_products] on one object. *)
Definition in_category_arg (category_arg : option string)
    (p : HomeDepotSupplier.Product) : bool :=
  match category_arg with
  | None => true
  | Some c =>
      if bool_decide (c = "") then true
      else bool_decide (HomeDepotSupplier.category p = c)
  end.

Definition within_price (max_price : option num)
    (p : HomeDepotSupplier.Product) : bool :=
  match max_price with
  | None => true
  | Some m => if truthy m then negb (gt (HomeDepotSupplier.price p) m) else true
  end.

Definition mentions (query : string) (p : HomeDepotSupplier.Product) : bool :=
  existsb (contains (HomeDepotSupplier.searchable p)) (split (lower query)).

Definition selected (query : string) (category_arg : option string)
    (max_price : option num) (p : HomeDepotSupplier.Product) : bool :=
  in_category_arg category_arg p && within_price max_price p
  && mentions query p.

(** Whether the object at a position is selected. *)
Definition selected_at (query : string) (category_arg : option string)
    (max_price : option num) (objects : list HomeDepotSupplier.Product)
    (i : nat) : bool :=
  match objects !! i with
  | Some p => selected query category_arg max_price p
  | None => false
  end.

(** What a search does to one stored object. *)
Definition relocated (query : string) (category_arg zip_code : option string)
    (max_price : option num) (p : HomeDepotSupplier.Product)
    : HomeDepotSupplier.Product :=
  if HomeDepotSupplier.truthy_str zip_code
     && selected query category_arg max_price p
  then HomeDepotSupplier.locate p else p.

(** The list without the later elements whose key was met before; [seen]
    holds the keys met so far. *)
Fixpoint first_of_each {A} (key : A → string) (seen : gset string)
    (xs : list A) : list A :=
  match xs with
  | [] => []
  | x :: xs' =>
      if bool_decide (key x ∈ seen) then first_of_each key seen xs'
      else x :: first_of_each key ({[ key x ]} ∪ seen) xs'
  end.

(** The references [search] finds in each supplier of a list, the first
    of which has position [j]. *)
Fixpoint found_by (search : HomeDepotSupplier.t → list nat) (j : nat)
    (ss : list (string * HomeDepotSupplier.t)) : list (nat * nat) :=
  match ss with
  | [] => []
  | s :: ss' => ((λ i, (j, i)) <$> search s.2) ++ found_by search (S j) ss'
  end.

End Derived.

(** ** Sample data *)

Module Examples.
Import CodeDatabase.

Definition outlet_code : record :=
  {[ "code_ref" := VStr "NEC 210.52(A)(1)";
     "jurisdiction" := VStr "National";
     "category" := VStr "electrical";
     "title" := VStr "Outlet Spacing";
     "summary" := VStr "Receptacle outlets every 12 feet";
     "common_questions" := VList [VStr "How far apart should outlets be?"] ]}.

Definition stair_code : record :=
  {[ "code_ref" := VStr "IRC R311.7.5.1";
     "jurisdiction" := VStr "National";
     "category" := VStr "structural";
     "title" := VStr "Stair Riser Height";
     "summary" := VStr "Maximum riser height is 7-3/4 inches" ]}.

Definition local_code : record :=
  {[ "code_ref" := VStr "CA 1";
     "jurisdiction" := VStr "California";
     "title" := VStr "Outlet rule" ]}.

Definition untagged_code : record :=
  {[ "code_ref" := VStr "X 1"; "title" := VStr "Outlet height" ]}.

Definition sample_codes : list record :=
  [stair_code; outlet_code; local_code; untagged_code].

Definition sample_db : CodeDatabase.t :=
  CodeDatabase.Build "codes.json" sample_codes.

(** What [search] returns on the sample for "outlet HEIGHT outlet". *)
Definition sample_results : list record :=
  [with_score outlet_code 2; with_score stair_code 1].

(** The first two objects of [_initialize_mock_products]. *)
Definition romex : HomeDepotSupplier.Product :=
  {| HomeDepotSupplier.id := "HD-12345";
     HomeDepotSupplier.name :=
       "Southwire 250 ft. 12/2 Solid Romex SIMpull CU NM-B W/G Wire";
     HomeDepotSupplier.category := "electrical";
     HomeDepotSupplier.subcategory := "wire";
     HomeDepotSupplier.price := Num.Float 87.43;
     HomeDepotSupplier.currency := "USD";
     HomeDepotSupplier.supplier := "Home Depot";
     HomeDepotSupplier.in_stock := true;
     HomeDepotSupplier.quantity_available := Some 47%Z;
     HomeDepotSupplier.specifications :=
       {[ "gauge" := VStr "12 AWG";
          "conductors" := VStr "2 with ground";
          "ampacity_60c" := VStr "20A";
          "ampacity_90c" := VStr "25A";
          "voltage_rating" := VStr "600V";
          "length" := VStr "250 feet";
          "insulation" := VStr "PVC";
          "wire_type" := VStr "NM-B (Romex)";
          "material" := VStr "Copper" ]};
     HomeDepotSupplier.url := Some "https://www.homedepot.com/p/12345";
     HomeDepotSupplier.image_url :=
       Some "https://images.homedepot.com/productImages/12345.jpg";
     HomeDepotSupplier.rating := Some (Num.Float 4.7);
     HomeDepotSupplier.review_count := Some 2340%Z;
     HomeDepotSupplier.store_location := None;
     HomeDepotSupplier.distance_miles := None;
     HomeDepotSupplier.manufacturer := Some "Southwire" |}.

Definition cerrowire : HomeDepotSupplier.Product :=
  {| HomeDepotSupplier.id := "HD-12346";
     HomeDepotSupplier.name := "Cerrowire 250 ft. 12/2 NM-B Wire";
     HomeDepotSupplier.category := "electrical";
     HomeDepotSupplier.subcategory := "wire";
     HomeDepotSupplier.price := Num.Float 79.98;
     HomeDepotSupplier.currency := "USD";
     HomeDepotSupplier.supplier := "Home Depot";
     HomeDepotSupplier.in_stock := true;
     HomeDepotSupplier.quantity_available := Some 23%Z;
     HomeDepotSupplier.specifications :=
       {[ "gauge" := VStr "12 AWG";
          "conductors" := VStr "2 with ground";
          "ampacity_60c" := VStr "20A";
          "voltage_rating" := VStr "600V";
          "length" := VStr "250 feet";
          "insulation" := VStr "PVC";
          "wire_type" := VStr "NM-B";
          "material" := VStr "Copper" ]};
     HomeDepotSupplier.url := Some "https://www.homedepot.com/p/12346";
     HomeDepotSupplier.image_url := None;
     HomeDepotSupplier.rating := Some (Num.Float 4.5);
     HomeDepotSupplier.review_count := Some 890%Z;
     HomeDepotSupplier.store_location := None;
     HomeDepotSupplier.distance_miles := None;
     HomeDepotSupplier.manufacturer := Some "Cerrowire" |}.

Definition depot : HomeDepotSupplier.t :=
  HomeDepotSupplier.Build None "Home Depot" [romex; cerrowire].

(** The product database over that supplier. *)
Definition product_db : ProductDatabase.t :=
  ProductDatabase.Build [("home_depot", depot)].

(** A collection with three records of one category and one without. *)
Definition question_codes : list record :=
  [ {[ "category" := VStr "electrical";
       "common_questions" := VList [VStr "q1"; VStr "q2"] ]};
    {[ "title" := VStr "untitled" ]};
    {[ "category" := VStr "electrical";
       "common_questions" := VList [VStr "q3"; VStr "q4"] ]};
    {[ "category" := VStr "electrical";
       "common_questions" := VList [VStr "q5"] ]} ].

(** What [calculate_pex_pipe] returns for 8 fixtures at 30 feet on a
    manifold. *)
Definition pex_sample : MaterialCalculator.PexNeeded :=
  {| MaterialCalculator.system_type := "Manifold (home-run)";
     MaterialCalculator.fixtures := Num.Int 8;
     MaterialCalculator.hot_water_pipe :=
       {| MaterialCalculator.feet_needed := 180;
          MaterialCalculator.feet_to_buy := 300;
          MaterialCalculator.pipe_size := "1/2 inch PEX";
          MaterialCalculator.pipe_color := "Red" |};
     MaterialCalculator.cold_water_pipe :=
       {| MaterialCalculator.feet_needed := 288;
          MaterialCalculator.feet_to_buy := 300;
          MaterialCalculator.pipe_size := "1/2 inch PEX";
          MaterialCalculator.pipe_color := "Blue" |};
     MaterialCalculator.pex_note := "Also budget for manifold, fittings, and crimp rings. Consider 3/4 inch for main lines." |}.


Definition question_db : CodeDatabase.t :=
  CodeDatabase.Build "codes.json" question_codes.

Definition question_categories : CodeDatabase.categories :=
  [ (VStr "electrical",
     CodeDatabase.CategoryInfo 3 [VStr "q1"; VStr "q2"; VStr "q3"]);
    (VStr "general", CodeDatabase.CategoryInfo 1 []) ].

End Examples.

(** * Properties *)

(** ** Evaluation on sample inputs *)

Example split_ex :
  split ("  Outlet   spacing" +:+ String (Ascii.ascii_of_N 10) "rule ")
  = ["Outlet"; "spacing"; "rule"].
Proof. reflexivity. Qed.

Example lower_ex : lower "GFCI Outlet, 12'" = "gfci outlet, 12'".
Proof. reflexivity. Qed.

Example contains_ex :
  contains "category" "cat" = true ∧ contains "category" "dog" = false.
Proof. split; reflexivity. Qed.

Example float_product_ex :
  Num.mul (Num.Int 100) (Num.Float 1.15) = Ok (Num.Float 114.99999999999999).
Proof. vm_compute. reflexivity. Qed.

Example int_truediv_ex :
  Num.truediv (Num.Int 132) (Num.Int 10) = Ok (Num.Float 13.2) ∧
  Num.ceil (Num.Float 13.2) = Ok 14%Z ∧
  Num.truediv (Num.Int 1) (Num.Int 0) = Raise ZeroDivisionError.
Proof. split_and!; vm_compute; reflexivity. Qed.

Example repr_ex :
  repr (VList [VStr "a'b"; VInt (-3); VNone])
  = "[" +:+ String quote_double "a'b" +:+ String quote_double ", -3, None]".
Proof. vm_compute. reflexivity. Qed.

(** ** Lists: slices and the stable sort *)

Section list_facts.
Context {A : Type}.
Implicit Types xs ys : list A.

Lemma slice_to_subseteq xs k : slice_to xs k ⊆ xs.
Proof. unfold slice_to. destruct (0 <=? k)%Z; apply subseteq_take. Qed.

Lemma slice_to_nonneg xs k :
  (0 ≤ k)%Z → slice_to xs k = take (Z.to_nat k) xs.
Proof. intros Hk. unfold slice_to. by rewrite (proj2 (Z.leb_le 0 k) Hk). Qed.

Lemma slice_to_nil k : slice_to (@nil A) k = [].
Proof. unfold slice_to. destruct (0 <=? k)%Z; by rewrite take_nil. Qed.

Lemma filter_none (P : A → Prop) `{!∀ x, Decision (P x)} xs :
  Forall (λ x, ¬ P x) xs → filter P xs = [].
Proof.
  induction 1 as [|x xs Hx _ IH]; [done|].
  by rewrite filter_cons_False.
Qed.

Lemma insert_by_perm (lt : A → A → bool) x xs :
  insert_by lt x xs ≡ₚ x :: xs.
Proof.
  induction xs as [|y ys IH]; simpl; [done|].
  destruct (lt x y); [done|].
  rewrite IH. apply perm_swap.
Qed.

Lemma foldl_insert_by_perm (lt : A → A → bool) xs acc :
  foldl (λ acc x, insert_by lt x acc) acc xs ≡ₚ acc ++ xs.
Proof.
  revert acc. induction xs as [|x xs IH]; intros acc; simpl.
  - by rewrite app_nil_r.
  - rewrite IH, insert_by_perm. simpl. apply Permutation_middle.
Qed.

Lemma stable_sort_perm (lt : A → A → bool) xs : stable_sort lt xs ≡ₚ xs.
Proof. unfold stable_sort. by rewrite foldl_insert_by_perm. Qed.

Lemma sort_by_perm {K} (key : A → K) lt descending xs :
  sort_by key lt descending xs ≡ₚ xs.
Proof.
  unfold sort_by. destruct descending.
  - by rewrite reverse_Permutation, stable_sort_perm, reverse_Permutation.
  - apply stable_sort_perm.
Qed.

Lemma sort_by_nil {K} (key : A → K) lt descending :
  sort_by key lt descending [] = [].
Proof. by destruct descending. Qed.

(** Sorting on an integer key. *)
Context (key : A → Z).
Local Abbreviation key_lt := (λ a b : A, (key a <? key b)%Z).
Local Abbreviation ascending := (λ a b : A, (key a ≤ key b)%Z).
Local Abbreviation descending := (λ a b : A, (key b ≤ key a)%Z).
Local Abbreviation of_key n := (λ a : A, key a = n).

Lemma insert_by_sorted x xs :
  StronglySorted ascending xs →
  StronglySorted ascending (insert_by key_lt x xs).
Proof.
  induction 1 as [|y ys Hys IH Hy]; simpl.
  - repeat constructor.
  - destruct (Z.ltb_spec (key x) (key y)) as [Hlt|Hge].
    + constructor; [by constructor|].
      constructor; [lia|].
      eapply Forall_impl; [exact Hy|]. intros; simpl in *; lia.
    + constructor; [done|].
      rewrite (insert_by_perm key_lt x ys). constructor; [done|exact Hy].
Qed.

Lemma foldl_insert_by_sorted xs acc :
  StronglySorted ascending acc →
  StronglySorted ascending (foldl (λ acc x, insert_by key_lt x acc) acc xs).
Proof.
  revert acc. induction xs as [|x xs IH]; intros acc Hacc; simpl; [done|].
  by apply IH, insert_by_sorted.
Qed.

(** Stability of one insertion: among the elements of one key, the new one
    comes last. *)
Lemma insert_by_stable n x xs :
  StronglySorted ascending xs →
  filter (of_key n) (insert_by key_lt x xs)
  = filter (of_key n) xs ++ filter (of_key n) [x].
Proof.
  induction 1 as [|y ys Hys IH Hy]; simpl; [done|].
  destruct (Z.ltb_spec (key x) (key y)) as [Hlt|Hge].
  - rewrite (filter_cons _ x). rewrite (filter_singleton (of_key n) x [x]).
    destruct (decide (key x = n)) as [Hx|Hx]; [|by rewrite app_nil_r].
    assert (filter (of_key n) (y :: ys) = []) as ->; [|done].
    apply filter_none.
    constructor; [lia|].
    eapply Forall_impl; [exact Hy|]. intros; simpl in *; lia.
  - rewrite !(filter_cons _ y), IH. by destruct (decide (key y = n)).
Qed.

Lemma foldl_insert_by_stable n xs acc :
  StronglySorted ascending acc →
  filter (of_key n) (foldl (λ acc x, insert_by key_lt x acc) acc xs)
  = filter (of_key n) acc ++ filter (of_key n) xs.
Proof.
  revert acc. induction xs as [|x xs IH]; intros acc Hacc; simpl.
  - by rewrite app_nil_r.
  - rewrite IH by by apply insert_by_sorted.
    rewrite insert_by_stable by done.
    rewrite (filter_cons _ x xs), (filter_singleton (of_key n) x [x]).
    rewrite <-(assoc_L (++)). by destruct (decide (key x = n)).
Qed.

Lemma StronglySorted_reverse xs :
  StronglySorted ascending xs → StronglySorted descending (reverse xs).
Proof.
  induction 1 as [|y ys Hys IH Hy]; [constructor|].
  rewrite reverse_cons. apply StronglySorted_app. split_and!.
  - intros a b Ha Hb%list_elem_of_singleton. subst b.
    rewrite elem_of_reverse in Ha. rewrite Forall_forall in Hy.
    exact (Hy a Ha).
  - done.
  - repeat constructor.
Qed.

(** [sort(key=key, reverse=True)] orders by descending key and keeps the
    elements of equal key in their order. *)
Lemma sort_by_desc_sorted xs :
  StronglySorted descending (sort_by key Z.ltb true xs).
Proof.
  unfold sort_by. apply StronglySorted_reverse.
  apply (foldl_insert_by_sorted (reverse xs) []). constructor.
Qed.

Lemma sort_by_desc_stable n xs :
  filter (of_key n) (sort_by key Z.ltb true xs) = filter (of_key n) xs.
Proof.
  unfold sort_by. rewrite filter_reverse. unfold stable_sort.
  rewrite (foldl_insert_by_stable n (reverse xs) []) by constructor.
  simpl. by rewrite filter_reverse, reverse_involutive.
Qed.

End list_facts.

(** ** The search loop against the rule of the specification *)

Ltac unfold_bind := unfold mbind, result_bind, bind in *.

Section search_facts.
Import CodeDatabase Spec.
Implicit Types code r : record.
Implicit Types codes results : list record.

Lemma count_matching_acc (words : list string) (text : string) (n : Z) :
  foldl (λ (score : Z) word,
           if contains text word then (score + 1)%Z else score) n words
  = (n + Z.of_nat (length (filter (λ w, contains text w) words)))%Z.
Proof.
  revert n. induction words as [|w words IH]; intros n; simpl.
  - lia.
  - rewrite IH, filter_cons. destruct (contains text w) eqn:Hw.
    + rewrite decide_True by exact I. simpl length. lia.
    + rewrite decide_False by (intros []). lia.
Qed.

Lemma count_matching_token_count query text :
  count_matching (split (lower query)) text = token_count query text.
Proof. unfold count_matching, token_count. by rewrite count_matching_acc. Qed.

Lemma get_ne_attr_is code key s : get_ne code key s = negb (attr_is code key s).
Proof.
  unfold get_ne, attr_is. by destruct (code !! key) as [[]|].
Qed.

Lemma with_score_lookup_ne code n key :
  key ≠ "relevance_score" → with_score code n !! key = code !! key.
Proof. intros Hne. unfold with_score. by rewrite lookup_insert_ne. Qed.

Lemma with_score_lookup code n :
  with_score code n !! "relevance_score" = Some (VInt n).
Proof. unfold with_score. by rewrite lookup_insert_eq. Qed.

Lemma relevance_score_with_score code n :
  relevance_score (with_score code n) = n.
Proof. unfold relevance_score. by rewrite with_score_lookup. Qed.


Lemma attr_is_with_score code n key s :
  key ≠ "relevance_score" →
  attr_is (with_score code n) key s = attr_is code key s.
Proof. intros Hne. unfold attr_is. by rewrite with_score_lookup_ne. Qed.

Lemma attr_is_lookup code key s :
  attr_is code key s = true ↔ code !! key = Some (VStr s).
Proof.
  unfold attr_is.
  destruct (code !! key) as [[]|]; try (split; [done|congruence]).
  rewrite bool_decide_eq_true. split; congruence.
Qed.

(** The searchable text of a record whose three text fields are present and
    well typed: the fields in lower case, a single space between them. *)
Lemma all_strings_VStr (qs : list string) : all_strings (VStr <$> qs) = Ok qs.
Proof.
  induction qs as [|q qs IH]; [done|].
  rewrite fmap_cons. cbn [all_strings]. unfold_bind. by rewrite IH.
Qed.

Lemma searchable_text_of_strings code title summary (questions : list string) :
  code !! "title" = Some (VStr title) →
  code !! "summary" = Some (VStr summary) →
  code !! "common_questions" = Some (VList (VStr <$> questions)) →
  searchable_text code
  = Ok (lower (title +:+ " " +:+ summary +:+ " " +:+ join " " questions)).
Proof.
  intros Ht Hs Hq. unfold searchable_text. rewrite Ht, Hs, Hq. simpl.
  unfold_bind. by rewrite all_strings_VStr.
Qed.

(** One iteration of the loop, read as steps 1 to 5. *)
Lemma search_body_spec query jurisdiction code_type results code :
  search_body (lower query) jurisdiction code_type results code
  = if passes_filters jurisdiction code_type code then
      r ← scored query code;
      Ok (if bool_decide (1 ≤ relevance_score r)%Z then results ++ [r]
          else results)
    else Ok results.
Proof.
  unfold search_body, passes_filters, scored.
  rewrite !get_ne_attr_is.
  destruct (attr_is code "jurisdiction" jurisdiction); simpl; [|done].
  destruct code_type as [c|]; simpl.
  - destruct (bool_decide (c = "")); simpl.
    + unfold_bind. destruct (searchable_text code) as [text|e]; [|done].
      rewrite count_matching_token_count, relevance_score_with_score.
      destruct (Z.ltb_spec 0 (token_count query text)).
      * by rewrite bool_decide_eq_true_2 by lia.
      * by rewrite bool_decide_eq_false_2 by lia.
    + destruct (attr_is code "category" c); simpl; [|done].
      unfold_bind. destruct (searchable_text code) as [text|e]; [|done].
      rewrite count_matching_token_count, relevance_score_with_score.
      destruct (Z.ltb_spec 0 (token_count query text)).
      * by rewrite bool_decide_eq_true_2 by lia.
      * by rewrite bool_decide_eq_false_2 by lia.
  - unfold_bind. destruct (searchable_text code) as [text|e]; [|done].
    rewrite count_matching_token_count, relevance_score_with_score.
    destruct (Z.ltb_spec 0 (token_count query text)).
    + by rewrite bool_decide_eq_true_2 by lia.
    + by rewrite bool_decide_eq_false_2 by lia.
Qed.

Lemma matching_cons code codes query jurisdiction code_type :
  matching (code :: codes) query jurisdiction code_type
  = if passes_filters jurisdiction code_type code then
      r ← scored query code;
      m ← matching codes query jurisdiction code_type;
      Ok (if bool_decide (1 ≤ relevance_score r)%Z then r :: m else m)
    else matching codes query jurisdiction code_type.
Proof.
  unfold matching. rewrite filter_cons.
  destruct (passes_filters jurisdiction code_type code) eqn:Hp.
  - rewrite decide_True by exact I.
    simpl. unfold_bind.
    destruct (scored query code) as [r|e]; [|done].
    destruct (map_result _ _) as [rs|e]; [|done].
    rewrite filter_cons.
    by destruct (decide _);
      [rewrite bool_decide_eq_true_2|rewrite bool_decide_eq_false_2].
  - by rewrite decide_False by (intros []).
Qed.

(** The loop builds the list of steps 1 to 5 behind what it started with. *)
Lemma for_each_search_body query jurisdiction code_type codes results :
  for_each (search_body (lower query) jurisdiction code_type) results codes
  = m ← matching codes query jurisdiction code_type; Ok (results ++ m).
Proof.
  revert results. induction codes as [|code codes IH]; intros results.
  - simpl. unfold matching. simpl. by rewrite app_nil_r.
  - simpl. rewrite search_body_spec, matching_cons.
    destruct (passes_filters jurisdiction code_type code).
    + unfold_bind. destruct (scored query code) as [r|e]; [|done].
      destruct (bool_decide (1 ≤ relevance_score r)%Z).
      * pose proof (IH (results ++ [r])) as IH'. unfold_bind. rewrite IH'.
        destruct (matching codes query jurisdiction code_type); [|done].
        by rewrite <-(assoc_L (++)).
      * pose proof (IH results) as IH'. unfold_bind. rewrite IH'.
        by destruct (matching codes query jurisdiction code_type).
    + unfold_bind. simpl. apply IH.
Qed.

(** [search] is steps 1 to 5, then the descending stable sort, then the
    slice. *)
Lemma search_codes_spec codes query jurisdiction code_type top_k :
  search_codes codes query jurisdiction code_type top_k
  = m ← matching codes query jurisdiction code_type;
    Ok (slice_to (sort_by relevance_score Z.ltb true m) top_k).
Proof.
  unfold search_codes. rewrite for_each_search_body.
  unfold_bind. by destruct (matching codes query jurisdiction code_type).
Qed.

End search_facts.

Section search_properties.
Import CodeDatabase Spec.
Implicit Types code r : record.
Implicit Types codes results : list record.

Lemma map_result_elem {A B} (f : A → result B) xs ys y :
  map_result f xs = Ok ys → y ∈ ys → ∃ x, x ∈ xs ∧ f x = Ok y.
Proof.
  revert ys. induction xs as [|x xs IH]; intros ys Hmap Hy; simpl in Hmap.
  - injection Hmap as <-. by apply elem_of_nil in Hy.
  - unfold_bind. destruct (f x) as [y'|] eqn:Hfx; [|done].
    destruct (map_result f xs) as [ys'|]; [|done].
    injection Hmap as <-. apply elem_of_cons in Hy as [->|Hy].
    + exists x. split; [left|done].
    + destruct (IH ys' eq_refl Hy) as (x' & Hx' & Hfx').
      exists x'. split; [by right|done].
Qed.

(** What steps 1 to 5 keep: a record of the collection that passes the
    filters, annotated with its token count, which is 1 or more. *)
Lemma matching_elem codes query jurisdiction code_type m r :
  matching codes query jurisdiction code_type = Ok m → r ∈ m →
  ∃ code text,
    code ∈ codes ∧ passes_filters jurisdiction code_type code = true ∧
    searchable_text code = Ok text ∧
    r = with_score code (token_count query text) ∧
    (1 ≤ token_count query text)%Z.
Proof.
  unfold matching. intros Hm Hr. unfold_bind.
  destruct (map_result _ _) as [rs|] eqn:Hrs; [|done].
  injection Hm as <-. apply list_elem_of_filter in Hr as [Hscore Hr].
  destruct (map_result_elem _ _ _ _ Hrs Hr) as (code & Hcode & Hsc).
  apply list_elem_of_filter in Hcode as [Hpass Hcode].
  unfold scored in Hsc. unfold_bind.
  destruct (searchable_text code) as [text|] eqn:Htext; [|done].
  injection Hsc as <-. rewrite relevance_score_with_score in Hscore.
  exists code, text. split_and!; try done. by apply Is_true_true.
Qed.

Lemma search_codes_elem codes query jurisdiction code_type top_k results r :
  search_codes codes query jurisdiction code_type top_k = Ok results →
  r ∈ results →
  ∃ m, matching codes query jurisdiction code_type = Ok m ∧ r ∈ m.
Proof.
  rewrite search_codes_spec. intros Hs Hr. unfold_bind.
  destruct (matching codes query jurisdiction code_type) as [m|]; [|done].
  injection Hs as <-. exists m. split; [done|].
  apply slice_to_subseteq in Hr.
  rewrite <-(sort_by_perm relevance_score Z.ltb true m). exact Hr.
Qed.


(** C2. For a positive [top_k], what [search] returns is the first [top_k]
    elements of a ranking of the filtered and scored records: the ranking
    holds the same records, is in descending order of score, and lists the
    records of each score in their collection order. *)
Theorem search_ranked_prefix (self : t) query jurisdiction code_type top_k
    results :
  (0 < top_k)%Z →
  (search self query jurisdiction code_type top_k).1 = Ok results →
  ∃ m ranked,
    matching (codes self) query jurisdiction code_type = Ok m ∧
    results = take (Z.to_nat top_k) ranked ∧
    ranked ≡ₚ m ∧
    StronglySorted by_score_desc ranked ∧
    ∀ n, with_score_eq n ranked = with_score_eq n m.
Proof.
  intros Hk. simpl. rewrite search_codes_spec. intros Hs. unfold_bind.
  destruct (matching (codes self) query jurisdiction code_type) as [m|];
    [|done].
  injection Hs as <-.
  exists m, (sort_by relevance_score Z.ltb true m). split_and!.
  - done.
  - apply slice_to_nonneg. lia.
  - apply sort_by_perm.
  - apply sort_by_desc_sorted.
  - intros n. apply sort_by_desc_stable.
Qed.

(** C3, as the code has it.  Every record [search] returns comes from a
    record of the collection whose jurisdiction is the one asked and, when a
    non-empty code type is given, whose category is that code type; a record
    without the attribute a filter tests is never returned. *)
Theorem search_results_pass_filters (self : t) query jurisdiction code_type
    top_k results :
  (search self query jurisdiction code_type top_k).1 = Ok results →
  (∀ r, r ∈ results →
     r !! "jurisdiction" = Some (VStr jurisdiction) ∧
     (∀ c, code_type = Some c → c ≠ "" → r !! "category" = Some (VStr c)) ∧
     ∃ code n, code ∈ codes self ∧ r = with_score code n ∧
       code !! "jurisdiction" = Some (VStr jurisdiction) ∧
       (∀ c, code_type = Some c → c ≠ "" →
          code !! "category" = Some (VStr c))) ∧
  (∀ code n, code !! "jurisdiction" = None → with_score code n ∉ results) ∧
  (∀ code n c, code_type = Some c → c ≠ "" → code !! "category" = None →
     with_score code n ∉ results).
Proof.
  intros Hs. simpl in Hs.
  assert (∀ r, r ∈ results →
    ∃ code n, code ∈ codes self ∧ r = with_score code n ∧
      code !! "jurisdiction" = Some (VStr jurisdiction) ∧
      (∀ c, code_type = Some c → c ≠ "" →
         code !! "category" = Some (VStr c))) as Hall.
  { intros r Hr.
    destruct (search_codes_elem _ _ _ _ _ _ _ Hs Hr) as (m & Hm & Hrm).
    destruct (matching_elem _ _ _ _ _ _ Hm Hrm)
      as (code & text & Hcode & Hpass & _ & -> & _).
    exists code, (token_count query text).
    unfold passes_filters in Hpass. apply andb_true_iff in Hpass as [Hj Hc].
    split_and!; try done.
    - by apply attr_is_lookup.
    - intros c -> Hne. rewrite bool_decide_eq_false_2 in Hc by done.
      by apply attr_is_lookup. }
  split_and!.
  - intros r Hr. destruct (Hall r Hr) as (code & n & Hcode & -> & Hj & Hc).
    split_and!.
    + by rewrite with_score_lookup_ne.
    + intros c Hct Hne. rewrite with_score_lookup_ne by done. by apply Hc.
    + by exists code, n.
  - intros code n Hnone Hin.
    destruct (Hall _ Hin) as (code' & n' & _ & Heq & Hj & _).
    apply (f_equal (.!! "jurisdiction")) in Heq.
    rewrite !with_score_lookup_ne in Heq by done. congruence.
  - intros code n c Hct Hne Hnone Hin.
    destruct (Hall _ Hin) as (code' & n' & _ & Heq & _ & Hc).
    apply (f_equal (.!! "category")) in Heq.
    rewrite !with_score_lookup_ne in Heq by done.
    rewrite (Hc c Hct Hne) in Heq. congruence.
Qed.

End search_properties.

Section empty_query.
Import CodeDatabase Spec.
Implicit Types code r : record.
Implicit Types codes results : list record.

Lemma all_strings_well_typed (xs : list value) :
  forallb is_str xs = true → ∃ ss, all_strings xs = Ok ss.
Proof.
  induction xs as [|[] xs IH]; simpl; try done.
  - by exists [].
  - intros [ss ->]%IH. by exists (s :: ss).
Qed.

(** On a well-typed record the searchable text is defined. *)
Lemma searchable_text_well_typed code :
  questions_well_typed code = true → ∃ text, searchable_text code = Ok text.
Proof.
  unfold questions_well_typed, searchable_text. intros Hwt.
  destruct (code !! "common_questions") as [[]|]; simpl in *; try done.
  - destruct (all_strings_well_typed _ Hwt) as [ss Hss].
    unfold_bind. rewrite Hss. by eexists.
  - by eexists.
Qed.






(** On a collection of the data model [search] returns, whatever the
    arguments. *)
Lemma matching_returns codes query jurisdiction code_type :
  Forall (λ c, questions_well_typed c = true) codes →
  ∃ m, matching codes query jurisdiction code_type = Ok m.
Proof.
  induction 1 as [|code codes Hwt _ [m IH]]; [by exists []|].
  rewrite matching_cons, IH.
  destruct (passes_filters jurisdiction code_type code); [|by exists m].
  destruct (searchable_text_well_typed code Hwt) as [text Htext].
  unfold scored. unfold_bind. rewrite Htext. by eexists.
Qed.

Lemma search_returns (self : t) query jurisdiction code_type top_k :
  Forall (λ c, questions_well_typed c = true) (codes self) →
  ∃ results,
    search self query jurisdiction code_type top_k = (Ok results, self).
Proof.
  intros Hwt. unfold search. rewrite search_codes_spec.
  destruct (matching_returns _ query jurisdiction code_type Hwt) as [m ->].
  unfold_bind. by eexists.
Qed.


End empty_query.

Section get_section_properties.
Import CodeDatabase Spec.
Implicit Types code : record.
Implicit Types codes : list record.

Lemma get_section_codes_step code codes section_reference jurisdiction :
  get_section_codes (code :: codes) section_reference jurisdiction
  = if is_section section_reference jurisdiction code then Some code
    else get_section_codes codes section_reference jurisdiction.
Proof.
  simpl. unfold is_section. by rewrite !get_ne_attr_is, !negb_involutive.
Qed.

Lemma get_section_codes_Some codes section_reference jurisdiction code :
  get_section_codes codes section_reference jurisdiction = Some code ↔
  ∃ before after,
    codes = before ++ code :: after ∧
    is_section section_reference jurisdiction code = true ∧
    Forall (λ c, is_section section_reference jurisdiction c = false) before.
Proof.
  induction codes as [|c codes IH].
  - split; [done|]. intros (before & after & Heq & _). by destruct before.
  - rewrite get_section_codes_step.
    destruct (is_section section_reference jurisdiction c) eqn:Hc.
    + split.
      * intros [= <-]. by exists [], codes.
      * intros (before & after & Heq & Hcode & Hbefore).
        destruct before as [|c' before]; simplify_eq/=; [done|].
        apply Forall_cons in Hbefore as [? _]. congruence.
    + rewrite IH. split.
      * intros (before & after & -> & Hcode & Hbefore).
        exists (c :: before), after. split_and!; try done. by constructor.
      * intros (before & after & Heq & Hcode & Hbefore).
        destruct before as [|c' before]; simplify_eq/=; [congruence|].
        apply Forall_cons in Hbefore as [_ Hbefore]. by exists before, after.
Qed.

Lemma get_section_codes_None codes section_reference jurisdiction :
  get_section_codes codes section_reference jurisdiction = None ↔
  Forall (λ c, is_section section_reference jurisdiction c = false) codes.
Proof.
  induction codes as [|c codes IH]; [done|].
  rewrite get_section_codes_step, Forall_cons.
  destruct (is_section section_reference jurisdiction c).
  - split; [done|]. by intros [? _].
  - rewrite IH. tauto.
Qed.

Lemma is_section_lookup section_reference jurisdiction code :
  is_section section_reference jurisdiction code = true ↔
  code !! "code_ref" = Some (VStr section_reference) ∧
  code !! "jurisdiction" = Some (VStr jurisdiction).
Proof. unfold is_section. by rewrite andb_true_iff, !attr_is_lookup. Qed.

(** C8. [get_section] returns the first record, in collection order, whose
    [code_ref] is exactly the reference and whose jurisdiction is the one
    asked, and [None] when there is none; it is defined on every collection
    and leaves the database as it was, so the same call again returns the
    same result. *)
Theorem get_section_first_match (self : t) section_reference jurisdiction :
  match (get_section self section_reference jurisdiction).1 with
  | Some code =>
      ∃ before after,
        codes self = before ++ code :: after ∧
        code !! "code_ref" = Some (VStr section_reference) ∧
        code !! "jurisdiction" = Some (VStr jurisdiction) ∧
        Forall (λ c, ¬ (c !! "code_ref" = Some (VStr section_reference) ∧
                        c !! "jurisdiction" = Some (VStr jurisdiction)))
               before
  | None =>
      Forall (λ c, ¬ (c !! "code_ref" = Some (VStr section_reference) ∧
                      c !! "jurisdiction" = Some (VStr jurisdiction)))
             (codes self)
  end ∧
  (get_section self section_reference jurisdiction).2 = self ∧
  get_section (get_section self section_reference jurisdiction).2
    section_reference jurisdiction
  = get_section self section_reference jurisdiction.
Proof.
  split; [|done]. simpl.
  destruct (get_section_codes _ _ _) as [code|] eqn:Hget.
  - apply get_section_codes_Some in Hget
      as (before & after & Heq & Hcode%is_section_lookup & Hbefore).
    exists before, after. split_and!; try done; try apply Hcode.
    eapply Forall_impl; [exact Hbefore|]. simpl.
    intros c Hc Hc'%is_section_lookup. congruence.
  - apply get_section_codes_None in Hget.
    eapply Forall_impl; [exact Hget|]. simpl.
    intros c Hc Hc'%is_section_lookup. congruence.
Qed.

End get_section_properties.

Section load_properties.
Import CodeDatabase Spec.

Lemma search_codes_nil query jurisdiction code_type top_k :
  search_codes [] query jurisdiction code_type top_k = Ok [].
Proof.
  unfold search_codes. cbn [for_each]. unfold_bind. cbv beta iota.
  by rewrite sort_by_nil, slice_to_nil.
Qed.

(** C9. When no file exists at the path of the corpus, [__init__] returns a
    database with the empty collection: nothing is raised, the files are
    untouched, two warning lines are printed, and every search on that
    database returns the empty list. *)
Theorem init_missing_file module_dir data_file_arg (w : world) path :
  path = default (module_dir +:+ "/codes.json") data_file_arg →
  files w !! path = None →
  ∃ w',
    init module_dir data_file_arg w = (Ok (Build path []), w') ∧
    files w' = files w ∧
    length (stdout w') = length (stdout w) + 2 ∧
    ∀ query jurisdiction code_type top_k,
      search (Build path []) query jurisdiction code_type top_k
      = (Ok [], Build path []).
Proof.
  intros -> Hnone. unfold init, load_codes. simpl. rewrite Hnone.
  eexists. split_and!; try done.
  - simpl. rewrite length_app. simpl. lia.
  - intros. unfold search. simpl. by rewrite search_codes_nil.
Qed.

End load_properties.

(** ** The calculators *)

Section calculator_properties.
Import Num MaterialCalculator.

Lemma pow2_pos (e : Z) : (0 ≤ e → 0 < 2 ^ e)%Z.
Proof. intros. by apply Z.pow_pos_nonneg. Qed.

(** [math.ceil] returns the least integer that is not below its argument,
    the comparison being the exact one. *)
Lemma ceil_least (x : num) (n : Z) :
  ceil x = Ok n → lt (Int (n - 1)) x = true ∧ lt (Int n) x = false.
Proof.
  destruct x as [m|f]; simpl.
  - intros [= ->]. unfold lt. simpl.
    rewrite (proj2 (Z.compare_lt_iff (n - 1) n)) by lia.
    by rewrite Z.compare_refl.
  - unfold lt, compare, compare_float_int.
    destruct (Prim2SF f) as [s|s| |s m e]; try done.
    + intros [= <-]. done.
    + destruct (Z.leb_spec 0 e) as [He|He]; intros [= <-]; simpl.
      * set (v := (if s then Z.neg m else Z.pos m)).
        rewrite (proj2 (Z.compare_gt_iff (v * 2 ^ e) (v * 2 ^ e - 1))) by lia.
        by rewrite Z.compare_refl.
      * set (v := (if s then Z.neg m else Z.pos m)).
        set (d := (2 ^ (- e))%Z).
        assert (0 < d)%Z as Hd by (apply pow2_pos; lia).
        pose proof (Z.mul_div_le (- v) d Hd) as Hlo.
        pose proof (Z.mul_succ_div_gt (- v) d Hd) as Hhi.
        rewrite (proj2 (Z.compare_gt_iff v ((- (- v / d) - 1) * d))) by nia.
        simpl. destruct (Z.compare_spec v (- (- v / d) * d)); try done. nia.
Qed.

(** C5, as the code has it.  Whenever [calculate_wire_length] returns,
    [base_feet] is [circuit_length_feet * 2 * num_circuits], [with_waste] is
    [base_feet * (1 + waste_factor)], both in Python's arithmetic (binary64
    as soon as a float takes part), and [recommended_feet] is 25 times the
    least integer not below the binary64 quotient [with_waste / 25].  For
    50 feet, one circuit and the default waste factor 0.15 this gives
    [base_feet = 100], [with_waste = 114.99999999999999] (the binary64
    product of 100 and 1.15, which prints as 115.0 with one decimal) and
    [recommended_feet = 125]. *)
Theorem wire_length_formulas circuit_length_feet num_circuits waste_factor r :
  calculate_wire_length circuit_length_feet num_circuits waste_factor = Ok r →
  (∃ doubled overage quotient spools,
     mul circuit_length_feet (Int 2) = Ok doubled ∧
     mul doubled num_circuits = Ok (base_feet r) ∧
     add (Int 1) waste_factor = Ok overage ∧
     mul (base_feet r) overage = Ok (with_waste r) ∧
     truediv (with_waste r) (Int 25) = Ok quotient ∧
     ceil quotient = Ok spools ∧
     lt (Int (spools - 1)) quotient = true ∧
     lt (Int spools) quotient = false ∧
     recommended_feet r = (spools * 25)%Z) ∧
  (circuit_length_feet = Int 50 → num_circuits = Int 1 →
   waste_factor = default_wire_waste_factor →
   base_feet r = Int 100 ∧
   with_waste r = Float 114.99999999999999 ∧
   recommended_feet r = 125%Z).
Proof.
  intros Hr. split.
  - unfold calculate_wire_length in Hr. unfold_bind.
    destruct (mul circuit_length_feet (Int 2)) as [doubled|] eqn:H1; [|done].
    destruct (mul doubled num_circuits) as [total|] eqn:H2; [|done].
    destruct (add (Int 1) waste_factor) as [overage|] eqn:H3; [|done].
    destruct (mul total overage) as [waste|] eqn:H4; [|done].
    destruct (truediv waste (Int 25)) as [quotient|] eqn:H5; [|done].
    destruct (ceil quotient) as [spools|] eqn:H6; [|done].
    injection Hr as <-. simpl.
    destruct (ceil_least _ _ H6) as [Hlo Hhi].
    exists doubled, overage, quotient, spools. by split_and!.
  - intros -> -> ->. vm_compute in Hr. injection Hr as <-. simpl.
    split_and!; reflexivity.
Qed.

(** C6, as the code has it.  Whenever [calculate_tile_needed] returns, the
    tile area is [(width/12) * (height/12)], the base count is the ceiling of
    [area / tile_area], [tiles_needed] is the ceiling of
    [base * (1 + waste_factor)], [cases_needed] is the ceiling of
    [tiles_needed / 10], and [total_tiles] is [cases_needed * 10].  For 120
    square feet of 12 by 12 tiles and the default waste factor 0.10 this
    gives [tiles_needed = 132], [cases_needed = 14] and [total_tiles = 140]. *)
Theorem tile_needed_formulas area tile_size_inches waste_factor r :
  calculate_tile_needed area tile_size_inches waste_factor = Ok r →
  (∃ width_ft height_ft tile_area quotient base overage padded per_case,
     truediv (tile_size_inches.1) (Int 12) = Ok width_ft ∧
     truediv (tile_size_inches.2) (Int 12) = Ok height_ft ∧
     mul width_ft height_ft = Ok tile_area ∧
     truediv area tile_area = Ok quotient ∧
     ceil quotient = Ok base ∧
     add (Int 1) waste_factor = Ok overage ∧
     mul (Int base) overage = Ok padded ∧
     ceil padded = Ok (tiles_needed r) ∧
     truediv (Int (tiles_needed r)) (Int 10) = Ok per_case ∧
     ceil per_case = Ok (cases_needed r) ∧
     total_tiles r = (cases_needed r * 10)%Z) ∧
  (area = Int 120 → tile_size_inches = default_tile_size_inches →
   waste_factor = default_tile_waste_factor →
   tiles_needed r = 132%Z ∧ cases_needed r = 14%Z ∧ total_tiles r = 140%Z).
Proof.
  intros Hr. split.
  - unfold calculate_tile_needed in Hr. unfold_bind.
    destruct (truediv (tile_size_inches.1) (Int 12)) as [w|] eqn:H1; [|done].
    destruct (truediv (tile_size_inches.2) (Int 12)) as [h|] eqn:H2; [|done].
    destruct (mul w h) as [ta|] eqn:H3; [|done].
    destruct (truediv area ta) as [q|] eqn:H4; [|done].
    destruct (ceil q) as [base|] eqn:H5; [|done].
    destruct (add (Int 1) waste_factor) as [overage|] eqn:H6; [|done].
    destruct (mul (Int base) overage) as [padded|] eqn:H7; [|done].
    destruct (ceil padded) as [tiles|] eqn:H8; [|done].
    destruct (truediv (Int tiles) (Int 10)) as [pc|] eqn:H9; [|done].
    destruct (ceil pc) as [cases|] eqn:H10; [|done].
    destruct (mul (Int (cases * 10)) ta) as [coverage|] eqn:H11; [|done].
    injection Hr as <-. simpl.
    exists w, h, ta, q, base, overage, padded, pc. by split_and!.
  - intros -> -> ->. vm_compute in Hr. injection Hr as <-. simpl.
    split_and!; reflexivity.
Qed.

(** The scenario of C5 as the specification words it: the call does not
    return a [with_waste] equal to 115.0. *)
Lemma wire_scenario_with_waste_not_115 :
  ¬ ∃ r,
      calculate_wire_length (Int 50) (Int 1) default_wire_waste_factor = Ok r ∧
      eq (base_feet r) (Int 100) = true ∧
      eq (with_waste r) (Float 115.0) = true ∧
      recommended_feet r = 125%Z.
Proof.
  intros (r & Hr & _ & Hwaste & _).
  vm_compute in Hr. injection Hr as <-.
  vm_compute in Hwaste. discriminate Hwaste.
Qed.

(** The scenario of C6 as the specification words it: the call does not
    return 144 tiles. *)
Lemma tile_scenario_not_144 :
  ¬ ∃ r,
      calculate_tile_needed (Int 120) default_tile_size_inches
        default_tile_waste_factor = Ok r ∧
      tiles_needed r = 144%Z.
Proof.
  intros (r & Hr & Htiles).
  vm_compute in Hr. injection Hr as <-.
  vm_compute in Htiles. discriminate Htiles.
Qed.

End calculator_properties.

(** ** The supplier search *)

Section supplier_properties.
Import Num HomeDepotSupplier.

(** A [max_price] that is falsy filters as no [max_price] at all. *)
Lemma search_body_falsy_max_price query_lower category_arg zip_code
    (max_price : num) st i :
  truthy max_price = false →
  search_body query_lower category_arg zip_code (Some max_price) st i
  = search_body query_lower category_arg zip_code None st i.
Proof.
  intros Hfalsy. unfold search_body. simpl. by rewrite Hfalsy.
Qed.

Lemma search_products_falsy_max_price self query category_arg zip_code
    (max_price : num) limit :
  truthy max_price = false →
  search_products self query category_arg zip_code (Some max_price) limit
  = search_products self query category_arg zip_code None limit.
Proof.
  intros Hfalsy. unfold search_products.
  assert (∀ refs st,
    foldl (search_body (lower query) category_arg zip_code (Some max_price))
          st refs
    = foldl (search_body (lower query) category_arg zip_code None) st refs)
    as ->; [|done].
  induction refs as [|i refs IH]; intros st; simpl; [done|].
  by rewrite IH, search_body_falsy_max_price.
Qed.

(** Without a zip code the loop leaves every object as it was. *)
Lemma search_body_no_zip query_lower category_arg zip_code max_price st i :
  truthy_str zip_code = false →
  (search_body query_lower category_arg zip_code max_price st i).1 = st.1.
Proof.
  intros Hzip. unfold search_body. rewrite Hzip.
  destruct (st.1 !! i) as [product|]; [|done].
  repeat (case_match; try done).
Qed.

Lemma search_products_no_zip self query category_arg zip_code max_price limit :
  truthy_str zip_code = false →
  (search_products self query category_arg zip_code max_price limit).2 = self.
Proof.
  intros Hzip. unfold search_products.
  assert (∀ refs st,
    (foldl (search_body (lower query) category_arg zip_code max_price)
           st refs).1 = st.1) as Hframe.
  { induction refs as [|i refs IH]; intros st; simpl; [done|].
    by rewrite IH, search_body_no_zip. }
  specialize (Hframe (seq 0 (length (mock_products self)))
                     (mock_products self, [])).
  destruct (foldl _ _ _) as [objects results]. simpl in *. subst objects.
  by destruct self.
Qed.

(** C7 on the supplier: a search with a zip code writes the location into
    the stored objects.  On the first two objects of the mock catalogue no
    object has a store location before the call; after searching "wire" with
    zip code 02134 both stored objects carry one, the supplier differs from
    what it was, and a later search without a zip code returns the objects
    with that location. *)
Theorem search_products_zip_code_writes_products :
  let before := Examples.depot in
  let after :=
    (search_products before "wire" None (Some "02134") None default_limit).2 in
  store_location <$> mock_products before = [None; None] ∧
  store_location <$> mock_products after
    = [Some "Brighton, MA"; Some "Brighton, MA"] ∧
  distance_miles <$> mock_products after
    = [Some (Float 2.3); Some (Float 2.3)] ∧
  after ≠ before ∧
  store_location <$>
    deref after (search_products after "wire" None None None default_limit).1
    = [Some "Brighton, MA"; Some "Brighton, MA"].
Proof.
  intros before after. split_and!; try (vm_compute; reflexivity).
  intros Heq.
  assert (store_location <$> mock_products after
          = store_location <$> mock_products before) as Hloc
    by by rewrite Heq.
  vm_compute in Hloc. discriminate Hloc.
Qed.

End supplier_properties.

(** ** Frame and falsy filters *)

Section frame_properties.
Import Num.

(** [CodeDatabase.search] returns the database it was called on. *)
Lemma code_search_frame (self : CodeDatabase.t) query jurisdiction code_type
    top_k :
  (CodeDatabase.search self query jurisdiction code_type top_k).2 = self.
Proof. reflexivity. Qed.

Lemma for_each_ext {A S} (f g : S → A → result S) s xs :
  (∀ s x, f s x = g s x) → for_each f s xs = for_each g s xs.
Proof.
  intros Hfg. revert s. induction xs as [|x xs IH]; intros s; simpl; [done|].
  rewrite Hfg. unfold_bind. by destruct (g s x).
Qed.

Lemma search_codes_empty_code_type codes query jurisdiction top_k :
  CodeDatabase.search_codes codes query jurisdiction (Some "") top_k
  = CodeDatabase.search_codes codes query jurisdiction None top_k.
Proof.
  unfold CodeDatabase.search_codes.
  rewrite (for_each_ext _
    (CodeDatabase.search_body (lower query) jurisdiction None)); [done|].
  intros results code. unfold CodeDatabase.search_body.
  by destruct (CodeDatabase.get_ne code "jurisdiction" jurisdiction).
Qed.

(** C10. A falsy filter value is no filter.  [search] with the empty string
    as code type is [search] with no code type; [search_products] with
    [max_price] 0 (the int or the float) is [search_products] with no
    [max_price], so that on the sample catalogue both objects, priced 79.98
    and 87.43, are returned under a [max_price] of 0. *)
Theorem falsy_filter_is_no_filter :
  (∀ self query jurisdiction top_k,
     CodeDatabase.search self query jurisdiction (Some "") top_k
     = CodeDatabase.search self query jurisdiction None top_k) ∧
  (∀ self query category_arg zip_code limit,
     HomeDepotSupplier.search_products self query category_arg zip_code
       (Some (Int 0)) limit
     = HomeDepotSupplier.search_products self query category_arg zip_code
         None limit) ∧
  (∀ self query category_arg zip_code limit,
     HomeDepotSupplier.search_products self query category_arg zip_code
       (Some (Float 0)) limit
     = HomeDepotSupplier.search_products self query category_arg zip_code
         None limit) ∧
  HomeDepotSupplier.deref Examples.depot
    (HomeDepotSupplier.search_products Examples.depot "wire" None None
       (Some (Int 0)) HomeDepotSupplier.default_limit).1
  = [Examples.cerrowire; Examples.romex].
Proof.
  split_and!.
  - intros. unfold CodeDatabase.search.
    by rewrite search_codes_empty_code_type.
  - intros. by apply search_products_falsy_max_price.
  - intros. by apply search_products_falsy_max_price.
  - vm_compute. reflexivity.
Qed.

End frame_properties.

(** ** The theorems at the sample data *)

Section instances.
Import Num CodeDatabase Spec Examples.

Lemma sample_search :
  search_codes sample_codes "outlet HEIGHT outlet" "National" None 3
  = Ok sample_results.
Proof. vm_compute. reflexivity. Qed.


Lemma search_ranked_prefix_sample :
  ∃ m ranked,
    matching sample_codes "outlet HEIGHT outlet" "National" None = Ok m ∧
    sample_results = take (Z.to_nat 3) ranked ∧
    ranked ≡ₚ m ∧
    StronglySorted by_score_desc ranked ∧
    ∀ n, with_score_eq n ranked = with_score_eq n m.
Proof.
  apply (search_ranked_prefix sample_db "outlet HEIGHT outlet"
           "National" None 3 sample_results).
  - lia.
  - vm_compute. reflexivity.
Defined.

(** C3 as the specification words it fails for the empty string as code
    type: it is a code type that was provided, no category filter is applied,
    and the record returned has another category. *)
Lemma search_empty_code_type_other_category :
  (search sample_db "spacing" "National" (Some "") 3).1
  = Ok [with_score outlet_code 1] ∧
  with_score outlet_code 1 !! "category" = Some (VStr "electrical") ∧
  with_score outlet_code 1 !! "category" ≠ Some (VStr "").
Proof. split_and!; [vm_compute; reflexivity..|discriminate]. Qed.

Lemma search_results_pass_filters_sample :
  (∀ r, r ∈ [with_score outlet_code 2] →
     r !! "jurisdiction" = Some (VStr "National") ∧
     (∀ c, Some "electrical" = Some c → c ≠ "" →
        r !! "category" = Some (VStr c)) ∧
     ∃ code n, code ∈ sample_codes ∧ r = with_score code n ∧
       code !! "jurisdiction" = Some (VStr "National") ∧
       (∀ c, Some "electrical" = Some c → c ≠ "" →
          code !! "category" = Some (VStr c))) ∧
  (∀ code n, code !! "jurisdiction" = None →
     with_score code n ∉ [with_score outlet_code 2]) ∧
  (∀ code n c, Some "electrical" = Some c → c ≠ "" →
     code !! "category" = None →
     with_score code n ∉ [with_score outlet_code 2]).
Proof.
  apply (search_results_pass_filters sample_db "outlet HEIGHT outlet"
           "National" (Some "electrical") 3 [with_score outlet_code 2]).
  vm_compute. reflexivity.
Defined.



Lemma init_missing_file_sample :
  ∃ w',
    init "/srv/building_codes_server" None (World ∅ [])
    = (Ok (Build "/srv/building_codes_server/codes.json" []), w') ∧
    files w' = ∅ ∧
    length (stdout w') = 0 + 2 ∧
    ∀ query jurisdiction code_type top_k,
      search (Build "/srv/building_codes_server/codes.json" []) query
        jurisdiction code_type top_k
      = (Ok [], Build "/srv/building_codes_server/codes.json" []).
Proof.
  apply (init_missing_file "/srv/building_codes_server" None (World ∅ [])
           "/srv/building_codes_server/codes.json").
  - reflexivity.
  - reflexivity.
Defined.

Lemma wire_length_formulas_sample :
  ∃ r,
    MaterialCalculator.calculate_wire_length (Int 50) (Int 1)
      MaterialCalculator.default_wire_waste_factor = Ok r ∧
    MaterialCalculator.base_feet r = Int 100 ∧
    MaterialCalculator.with_waste r = Float 114.99999999999999 ∧
    MaterialCalculator.recommended_feet r = 125%Z.
Proof.
  eexists. split; [vm_compute; reflexivity|].
  apply (wire_length_formulas (Int 50) (Int 1)
           MaterialCalculator.default_wire_waste_factor);
    [vm_compute; reflexivity|reflexivity..].
Defined.

Lemma tile_needed_formulas_sample :
  ∃ r,
    MaterialCalculator.calculate_tile_needed (Int 120)
      MaterialCalculator.default_tile_size_inches
      MaterialCalculator.default_tile_waste_factor = Ok r ∧
    MaterialCalculator.tiles_needed r = 132%Z ∧
    MaterialCalculator.cases_needed r = 14%Z ∧
    MaterialCalculator.total_tiles r = 140%Z.
Proof.
  eexists. split; [vm_compute; reflexivity|].
  apply (tile_needed_formulas (Int 120)
           MaterialCalculator.default_tile_size_inches
           MaterialCalculator.default_tile_waste_factor);
    [vm_compute; reflexivity|reflexivity..].
Defined.

End instances.

(** * Further properties *)

(** ** Strings *)

Section string_facts.
Import Derived.

(** The facts on [lower] are stated for ASCII text, on which it is
    [str.lower]. *)
Lemma lower_ascii_idemp (c : ascii) :
  is_ascii c = true → lower_ascii (lower_ascii c) = lower_ascii c.
Proof. by destruct c as [[] [] [] [] [] [] [] []]. Qed.

Lemma lower_idemp (s : string) :
  isascii s = true → lower (lower s) = lower s.
Proof.
  induction s as [|c s IH]; [done|].
  cbn [isascii]. intros [Hc Hs]%andb_true_iff.
  cbn [lower]. by rewrite lower_ascii_idemp, IH.
Qed.

Lemma starts_with_iff (w t : string) :
  starts_with w t = true ↔ ∃ post, t = w +:+ post.
Proof.
  revert t. induction w as [|a w IH]; intros t; simpl.
  - split; [by exists t|done].
  - destruct t as [|b t].
    + split; [done|]. by intros [post ?].
    + rewrite andb_true_iff, bool_decide_eq_true, IH. split.
      * intros [-> [post ->]]. by exists post.
      * intros [post [= -> ->]]. split; [done|by exists post].
Qed.

(** [w in t] holds exactly when [t] is [w] between two strings. *)
Lemma contains_iff (t w : string) :
  contains t w = true ↔ ∃ pre post, t = pre +:+ w +:+ post.
Proof.
  induction t as [|c t IH].
  - simpl. rewrite orb_false_r, starts_with_iff. split.
    + intros [post ->]. by exists "", post.
    + intros (pre & post & Heq). destruct pre; [by exists post|done].
  - cbn [contains]. rewrite orb_true_iff, starts_with_iff, IH. split.
    + intros [[post ->]|(pre & post & ->)].
      * by exists "", post.
      * by exists (String c pre), post.
    + intros (pre & post & Heq). destruct pre as [|c' pre].
      * left. by exists post.
      * right. injection Heq as -> ->. by exists pre, post.
Qed.

Lemma string_app_cons (c : ascii) (s t : string) :
  String c s +:+ t = String c (s +:+ t).
Proof. reflexivity. Qed.

Lemma string_app_assoc (a b c : string) : (a +:+ b) +:+ c = a +:+ b +:+ c.
Proof.
  induction a as [|x a IH]; [done|]. by rewrite !string_app_cons, IH.
Qed.

(** An ASCII prefix is lowered letter by letter, whatever follows it. *)
Lemma lower_prefix (a b : string) :
  isascii a = true → ∃ rest, lower (a +:+ b) = lower a +:+ rest.
Proof.
  induction a as [|x a IH]; [by exists (lower b)|].
  cbn [isascii]. intros [_ [rest Hrest]%IH]%andb_true_iff.
  exists rest. rewrite string_app_cons. cbn [lower].
  by rewrite Hrest, string_app_cons.
Qed.

(** A word found in the first part of a text is found in the text. *)
Lemma contains_app_l (a b w : string) :
  contains a w = true → contains (a +:+ b) w = true.
Proof.
  rewrite !contains_iff. intros (pre & post & ->).
  exists pre, (post +:+ b). by rewrite !string_app_assoc.
Qed.

End string_facts.

(** ** More on the search of the code database *)

Section search_more.
Import CodeDatabase Spec Derived.
Implicit Types code r : record.
Implicit Types codes results : list record.

(** X1. The search does not see the case of an ASCII query: the lowercased
    query gives the same results, whatever the text of the records. *)
Theorem search_lowercased_query (self : t) query jurisdiction code_type top_k :
  isascii query = true →
  search self (lower query) jurisdiction code_type top_k
  = search self query jurisdiction code_type top_k.
Proof.
  intros Hascii. unfold search, search_codes. by rewrite lower_idemp.
Qed.

Lemma Ok_inj {A} (a b : A) : Ok a = Ok b → a = b.
Proof. by intros [= ->]. Qed.

Lemma token_count_perm query query' text :
  split (lower query) ≡ₚ split (lower query') →
  token_count query text = token_count query' text.
Proof. intros Hp. unfold token_count. by rewrite Hp. Qed.

Lemma map_result_ext {A B} (f g : A → result B) xs :
  (∀ x, f x = g x) → map_result f xs = map_result g xs.
Proof.
  intros Hfg. induction xs as [|x xs IH]; [done|]. simpl.
  by rewrite Hfg, IH.
Qed.

Lemma matching_same_tokens codes query query' jurisdiction code_type :
  split (lower query) ≡ₚ split (lower query') →
  matching codes query jurisdiction code_type
  = matching codes query' jurisdiction code_type.
Proof.
  intros Hp. unfold matching.
  rewrite (map_result_ext (scored query) (scored query')); [done|].
  intros code. unfold scored. unfold_bind.
  destruct (searchable_text code) as [text|]; [|done].
  by rewrite (token_count_perm query query' text Hp).
Qed.

(** X2. The search does not see the order of the words of the query: two
    queries with the same words, each as many times, give the same
    results. *)
Theorem search_word_order (self : t) query query' jurisdiction code_type
    top_k :
  split (lower query) ≡ₚ split (lower query') →
  search self query jurisdiction code_type top_k
  = search self query' jurisdiction code_type top_k.
Proof.
  intros Hp. unfold search.
  by rewrite !search_codes_spec, (matching_same_tokens _ query query').
Qed.

Lemma map_result_length {A B} (f : A → result B) xs ys :
  map_result f xs = Ok ys → length ys = length xs.
Proof.
  revert ys. induction xs as [|x xs IH]; intros ys; simpl.
  - by intros [= <-].
  - unfold_bind. destruct (f x); [|done].
    destruct (map_result f xs) as [ys'|]; [|done].
    intros [= <-]. simpl. by rewrite (IH ys').
Qed.

Lemma matching_length codes query jurisdiction code_type m :
  matching codes query jurisdiction code_type = Ok m →
  length m ≤ length codes.
Proof.
  unfold matching. unfold_bind.
  destruct (map_result _ _) as [rs|] eqn:Hrs; [|done].
  intros [= <-]. apply map_result_length in Hrs.
  etrans; [apply length_filter|]. rewrite Hrs. apply length_filter.
Qed.

(** X3. For limits that are not negative, a smaller limit returns a prefix
    of what a larger limit returns, and no more records are returned than
    the limit or the collection has. *)
Theorem search_top_k_prefix (self : t) query jurisdiction code_type
    (k1 k2 : Z) results :
  (0 ≤ k1 ≤ k2)%Z →
  (search self query jurisdiction code_type k2).1 = Ok results →
  (search self query jurisdiction code_type k1).1
  = Ok (take (Z.to_nat k1) results) ∧
  (Z.of_nat (length results) ≤ k2)%Z ∧
  length results ≤ length (codes self).
Proof.
  intros Hk. simpl. rewrite !search_codes_spec. unfold_bind.
  destruct (matching (codes self) query jurisdiction code_type)
    as [m|] eqn:Hm; [|done].
  intros <-%Ok_inj. rewrite !slice_to_nonneg by lia.
  split_and!.
  - f_equal. rewrite take_take. f_equal. lia.
  - rewrite length_take. lia.
  - rewrite length_take, (Permutation_length (sort_by_perm _ _ _ _)).
    apply matching_length in Hm. lia.
Qed.

(** X4. A negative limit is not an error: [top_k = -n] returns the whole
    ranking without its last [n] records. *)
Theorem search_negative_top_k (self : t) query jurisdiction code_type
    (top_k : Z) ranking :
  (top_k < 0)%Z →
  (search self query jurisdiction code_type
     (Z.of_nat (length (codes self)))).1 = Ok ranking →
  (search self query jurisdiction code_type top_k).1
  = Ok (take (length ranking - Z.to_nat (- top_k)) ranking).
Proof.
  intros Hk. simpl. rewrite !search_codes_spec. unfold_bind.
  destruct (matching (codes self) query jurisdiction code_type)
    as [m|] eqn:Hm; [|done].
  intros <-%Ok_inj. apply matching_length in Hm.
  pose proof (Permutation_length
    (sort_by_perm relevance_score Z.ltb true m)) as Hlen.
  set (ranked := sort_by relevance_score Z.ltb true m) in *.
  rewrite (slice_to_nonneg _ (Z.of_nat (length (codes self)))) by lia.
  rewrite !(take_ge ranked (Z.to_nat (Z.of_nat (length (codes self)))))
    by lia.
  unfold slice_to. rewrite (proj2 (Z.leb_gt 0 top_k)) by lia.
  do 2 f_equal. lia.
Qed.

Lemma matching_complete codes query jurisdiction code_type m code text :
  matching codes query jurisdiction code_type = Ok m →
  code ∈ codes →
  passes_filters jurisdiction code_type code = true →
  searchable_text code = Ok text →
  (1 ≤ token_count query text)%Z →
  with_score code (token_count query text) ∈ m.
Proof.
  intros Hm Hin Hpass Htext Hpos. revert m Hm.
  induction Hin as [code codes|code c codes Hin IH]; intros m.
  - rewrite matching_cons, Hpass. unfold scored. unfold_bind. rewrite Htext.
    destruct (matching codes query jurisdiction code_type) as [m'|]; [|done].
    rewrite relevance_score_with_score, bool_decide_eq_true_2 by done.
    intros <-%Ok_inj. left.
  - rewrite matching_cons.
    destruct (passes_filters jurisdiction code_type c).
    + unfold_bind. destruct (scored query c) as [r|]; [|done].
      destruct (matching codes query jurisdiction code_type) as [m'|]; [|done].
      intros <-%Ok_inj. specialize (IH Hpass Htext m' eq_refl).
      destruct (bool_decide _); [by right|done].
    + by apply IH.
Qed.

(** The searchable text of a record with an ASCII title starts with the
    lowered title. *)
Lemma searchable_text_title code title text :
  isascii title = true →
  code !! "title" = Some (VStr title) →
  searchable_text code = Ok text →
  ∃ rest, text = lower title +:+ rest.
Proof.
  intros Hascii Ht. unfold searchable_text. rewrite Ht. simpl. unfold_bind.
  destruct (join_value _ _) as [qs|]; [|done].
  intros <-%Ok_inj. by apply lower_prefix.
Qed.

(** X5. Nothing is missed: on a collection of the data model, a record that
    passes the filters and whose title is ASCII and holds a word of the
    query, whatever the case, is among the results as soon as the limit is
    not below the size of the collection.  Only the lowering of the title is
    used: the summary and the questions of the record, and the other
    records, hold any text. *)
Theorem search_finds_title_word (self : t) query jurisdiction code_type top_k
    code title word :
  Forall (λ c, questions_well_typed c = true) (codes self) →
  code ∈ codes self →
  code !! "jurisdiction" = Some (VStr jurisdiction) →
  (∀ c, code_type = Some c → c ≠ "" → code !! "category" = Some (VStr c)) →
  code !! "title" = Some (VStr title) →
  isascii title = true →
  word ∈ split (lower query) →
  contains (lower title) word = true →
  (Z.of_nat (length (codes self)) ≤ top_k)%Z →
  ∃ results n,
    (search self query jurisdiction code_type top_k).1 = Ok results ∧
    (1 ≤ n)%Z ∧ with_score code n ∈ results.
Proof.
  intros Hwt Hin Hj Hc Htitle Hascii Hword Hcontains Hk. simpl.
  rewrite search_codes_spec.
  destruct (matching_returns _ query jurisdiction code_type Hwt) as [m Hm].
  rewrite Hm. unfold_bind.
  rewrite Forall_forall in Hwt.
  destruct (searchable_text_well_typed code (Hwt code Hin)) as [text Htext].
  destruct (searchable_text_title _ _ _ Hascii Htitle Htext) as [rest ->].
  set (text := lower title +:+ rest) in *.
  assert (1 ≤ token_count query text)%Z as Hpos.
  { unfold token_count.
    assert (word ∈ filter (λ w, contains text w) (split (lower query))) as Hf.
    { apply list_elem_of_filter. split; [|done].
      apply Is_true_true. by apply contains_app_l. }
    destruct (filter _ _); [by apply elem_of_nil in Hf|]. simpl. lia. }
  assert (passes_filters jurisdiction code_type code = true) as Hpass.
  { unfold passes_filters. apply andb_true_iff. split.
    - by apply attr_is_lookup.
    - destruct code_type as [c|]; [|done].
      destruct (bool_decide (c = "")) eqn:Hempty; [done|].
      apply bool_decide_eq_false in Hempty. apply attr_is_lookup. by apply Hc. }
  pose proof (matching_complete _ _ _ _ _ _ _ Hm Hin Hpass Htext Hpos) as Hr.
  pose proof (matching_length _ _ _ _ _ Hm) as Hlen.
  pose proof (sort_by_perm relevance_score Z.ltb true m) as Hperm.
  set (ranked := sort_by relevance_score Z.ltb true m) in *.
  exists (slice_to ranked top_k), (token_count query text).
  split_and!; [done..|].
  rewrite slice_to_nonneg by lia.
  rewrite take_ge by (rewrite (Permutation_length Hperm); lia).
  by rewrite Hperm.
Qed.

End search_more.

(** ** More on the supplier *)

Section supplier_more.
Import Num HomeDepotSupplier Derived.
Context (query : string) (category_arg zip_code : option string)
        (max_price : option num).
Implicit Types p : Product.
Implicit Types objects : list Product.

Local Abbreviation body :=
  (search_body (lower query) category_arg zip_code max_price).
Local Abbreviation chosen := (selected query category_arg max_price).
Local Abbreviation moved :=
  (relocated query category_arg zip_code max_price).

Local Abbreviation chosen_at := (selected_at query category_arg max_price).

Lemma search_body_selected objects refs i p :
  objects !! i = Some p →
  body (objects, refs) i
  = if chosen p
    then (if truthy_str zip_code then <[i := locate p]> objects else objects,
          refs ++ [i])
    else (objects, refs).
Proof.
  intros Hp. unfold search_body, selected, in_category_arg, within_price,
    mentions. simpl. rewrite Hp.
  destruct category_arg as [c|]; simpl.
  - destruct (bool_decide (c = "")); simpl.
    + destruct max_price as [m|]; simpl; [|done].
      destruct (truthy m); simpl; [|done].
      by destruct (gt (price p) m).
    + destruct (bool_decide (category p = c)); simpl; [|done].
      destruct max_price as [m|]; simpl; [|done].
      destruct (truthy m); simpl; [|done].
      by destruct (gt (price p) m).
  - destruct max_price as [m|]; simpl; [|done].
    destruct (truthy m); simpl; [|done].
    by destruct (gt (price p) m).
Qed.

(** The loop of [search_products], from any position on: the objects met
    are moved, the selected positions collected behind [refs]. *)
Lemma search_loop post : ∀ pre refs,
  foldl body ((moved <$> pre) ++ post, refs) (seq (length pre) (length post))
  = (moved <$> (pre ++ post),
     refs ++ filter (λ i, chosen_at (pre ++ post) i)
                    (seq (length pre) (length post))).
Proof.
  induction post as [|p post IH]; intros pre refs.
  - simpl. by rewrite !app_nil_r.
  - cbn [length seq foldl].
    assert (((moved <$> pre) ++ p :: post) !! length pre = Some p) as Hp.
    { rewrite lookup_app_r by (rewrite length_fmap; lia).
      by rewrite length_fmap, Nat.sub_diag. }
    assert ((pre ++ p :: post) !! length pre = Some p) as Hp'.
    { rewrite lookup_app_r by lia. by rewrite Nat.sub_diag. }
    rewrite (search_body_selected _ _ _ _ Hp).
    assert (chosen_at (pre ++ p :: post) (length pre) = chosen p) as Hat.
    { unfold selected_at. by rewrite Hp'. }
    assert (∀ refs',
      foldl body ((moved <$> pre) ++ moved p :: post, refs')
            (seq (S (length pre)) (length post))
      = (moved <$> (pre ++ p :: post),
         refs' ++ filter (λ i, chosen_at (pre ++ p :: post) i)
                         (seq (S (length pre)) (length post)))) as Hrest.
    { intros refs'. specialize (IH (pre ++ [p]) refs').
      rewrite fmap_app, length_app, <-!(assoc_L (++)) in IH. simpl in IH.
      by rewrite Nat.add_1_r in IH. }
    destruct (chosen p) eqn:Hsel.
    + rewrite filter_cons_True by by rewrite Hat.
      set (rest := filter _ (seq (S (length pre)) (length post))) in *.
      replace (refs ++ length pre :: rest)
        with ((refs ++ [length pre]) ++ rest)
        by (by rewrite <-(assoc_L (++))).
      rewrite <-Hrest. f_equal. f_equal.
      assert (<[length pre := locate p]> ((moved <$> pre) ++ p :: post)
              = (moved <$> pre) ++ locate p :: post) as ->.
      { rewrite insert_app_r_alt by (rewrite length_fmap; lia).
        by rewrite length_fmap, Nat.sub_diag. }
      assert (moved p = if truthy_str zip_code then locate p else p) as ->.
      { unfold relocated. by rewrite Hsel, andb_true_r. }
      by destruct (truthy_str zip_code).
    + rewrite filter_cons_False by (rewrite Hat; intros []).
      rewrite <-Hrest. f_equal. f_equal.
      unfold relocated. by rewrite Hsel, andb_false_r.
Qed.

(** What [search_products] computes: the stored objects are moved, and the
    references returned are the first [limit] selected positions in the
    order of the sort. *)
Lemma search_products_spec (self : t) limit :
  search_products self query category_arg zip_code max_price limit
  = (slice_to
       (sort_by (key_at (moved <$> mock_products self)) ref_lt false
          (filter (λ i, chosen_at (mock_products self) i)
                  (seq 0 (length (mock_products self)))))
       limit,
     Build (api_key self) (supplier_name self)
           (moved <$> mock_products self)).
Proof.
  unfold search_products.
  pose proof (search_loop (mock_products self) [] []) as Hloop.
  simpl in Hloop. rewrite Hloop. done.
Qed.

End supplier_more.

Section supplier_results.
Import Num HomeDepotSupplier Derived.
Implicit Types p : Product.
Implicit Types self : t.

Lemma selected_locate query category_arg max_price p :
  selected query category_arg max_price (locate p)
  = selected query category_arg max_price p.
Proof. reflexivity. Qed.

Lemma relocated_id query category_arg zip_code max_price p :
  id (relocated query category_arg zip_code max_price p) = id p.
Proof. unfold relocated. by destruct (_ && _). Qed.

Lemma relocated_sort_key query category_arg zip_code max_price p :
  sort_key (relocated query category_arg zip_code max_price p) = sort_key p.
Proof. unfold relocated. by destruct (_ && _). Qed.

Lemma relocated_selected query category_arg zip_code max_price
    query' category_arg' max_price' p :
  selected query' category_arg' max_price'
    (relocated query category_arg zip_code max_price p)
  = selected query' category_arg' max_price' p.
Proof. unfold relocated. by destruct (_ && _). Qed.

(** The references the loop collects, before the sort and the slice. *)
Lemma search_products_refs self query category_arg zip_code max_price limit i :
  i ∈ (search_products self query category_arg zip_code max_price limit).1 →
  selected_at query category_arg max_price (mock_products self) i = true.
Proof.
  rewrite search_products_spec. cbn [fst]. intros Hi.
  apply slice_to_subseteq in Hi.
  rewrite (sort_by_perm _ _ false _) in Hi.
  apply list_elem_of_filter in Hi as [Hsel _]. by apply Is_true_true.
Qed.

(** X6. Every product [search_products] returns is an object of the
    catalogue that has the category asked (when one is asked), is not above
    the maximum price (when one is given), and has a word of the query in its
    name, category or subcategory. *)
Theorem search_products_results self query category_arg zip_code max_price
    limit i :
  i ∈ (search_products self query category_arg zip_code max_price limit).1 →
  ∃ p,
    mock_products self !! i = Some p ∧
    (∀ c, category_arg = Some c → c ≠ "" → category p = c) ∧
    (∀ m, max_price = Some m → truthy m = true → gt (price p) m = false) ∧
    ∃ word, word ∈ split (lower query) ∧
            contains (lower (name p +:+ " " +:+ category p +:+ " " +:+
                             subcategory p)) word = true.
Proof.
  intros Hsel%search_products_refs. unfold selected_at in Hsel.
  destruct (mock_products self !! i) as [p|]; [|done].
  exists p. unfold selected in Hsel.
  apply andb_true_iff in Hsel as [[Hc Hm]%andb_true_iff Hw].
  split_and!; [done| | |].
  - intros c -> Hne. unfold in_category_arg in Hc.
    rewrite bool_decide_eq_false_2 in Hc by done.
    by apply bool_decide_eq_true in Hc.
  - intros m -> Ht. unfold within_price in Hm. rewrite Ht in Hm.
    by apply negb_true_iff in Hm.
  - unfold mentions in Hw. apply existsb_exists in Hw as (w & Hin & Hw).
    exists w. split; [by apply list_elem_of_In|done].
Qed.

(** X7. No product is returned twice, and for a limit that is not negative
    no more products are returned than the limit or the catalogue has. *)
Theorem search_products_bounds self query category_arg zip_code max_price
    limit :
  let refs :=
    (search_products self query category_arg zip_code max_price limit).1 in
  NoDup refs ∧
  length refs ≤ length (mock_products self) ∧
  ((0 ≤ limit)%Z → (Z.of_nat (length refs) ≤ limit)%Z).
Proof.
  intros refs. subst refs. rewrite search_products_spec. cbn [fst].
  set (chosen := filter _ (seq 0 _)).
  set (sorted := sort_by _ _ _ chosen).
  assert (NoDup sorted) as Hnd.
  { unfold sorted. rewrite sort_by_perm.
    apply NoDup_filter, NoDup_seq. }
  assert (length sorted ≤ length (mock_products self)) as Hlen.
  { unfold sorted. rewrite (Permutation_length (sort_by_perm _ _ _ _)).
    etrans; [apply length_filter|]. by rewrite length_seq. }
  assert (slice_to sorted limit `sublist_of` sorted) as Hsub.
  { unfold slice_to. destruct (0 <=? limit)%Z; apply sublist_take. }
  split_and!.
  - by eapply sublist_NoDup.
  - etrans; [by apply sublist_length|done].
  - intros Hl. rewrite slice_to_nonneg, length_take by done. lia.
Qed.

(** X8. What the search writes: an object is given the store location
    exactly when a zip code is passed and the object is selected by the
    query and the filters, whether or not the limit lets it be returned; no
    other object and no other field changes. *)
Theorem search_products_writes self query category_arg zip_code max_price
    limit :
  let after :=
    (search_products self query category_arg zip_code max_price limit).2 in
  api_key after = api_key self ∧
  supplier_name after = supplier_name self ∧
  length (mock_products after) = length (mock_products self) ∧
  ∀ i p, mock_products self !! i = Some p →
    mock_products after !! i
    = Some (if truthy_str zip_code
               && selected query category_arg max_price p
            then locate p else p).
Proof.
  intros after. subst after. rewrite search_products_spec. cbn [snd].
  split_and!; [done..| |]; cbn [mock_products].
  - by rewrite length_fmap.
  - intros i p Hp. by rewrite list_lookup_fmap, Hp.
Qed.

End supplier_results.

Section sort_ext.
Context {A K : Type}.

Lemma insert_by_ext (lt lt' : A → A → bool) x xs :
  (∀ a b, lt a b = lt' a b) → insert_by lt x xs = insert_by lt' x xs.
Proof.
  intros Hlt. induction xs as [|y ys IH]; [done|]. simpl.
  by rewrite Hlt, IH.
Qed.

Lemma stable_sort_ext (lt lt' : A → A → bool) xs :
  (∀ a b, lt a b = lt' a b) → stable_sort lt xs = stable_sort lt' xs.
Proof.
  intros Hlt. unfold stable_sort. generalize (@nil A).
  induction xs as [|x xs IH]; intros acc; [done|]. simpl.
  by rewrite IH, (insert_by_ext lt lt').
Qed.

(** The sort only looks at the keys. *)
Lemma sort_by_ext (key key' : A → K) lt descending xs :
  (∀ a, key a = key' a) →
  sort_by key lt descending xs = sort_by key' lt descending xs.
Proof.
  intros Hkey. unfold sort_by.
  assert (∀ a b, lt (key a) (key b) = lt (key' a) (key' b)) as Hlt
    by (intros; by rewrite !Hkey).
  destruct descending; by rewrite (stable_sort_ext _ _ _ Hlt).
Qed.

End sort_ext.

Section supplier_composition.
Import Num HomeDepotSupplier Derived.
Implicit Types p : Product.
Implicit Types self : t.

Lemma selected_at_relocated query category_arg zip_code max_price
    query' category_arg' max_price' (objects : list Product) i :
  selected_at query' category_arg' max_price'
    (relocated query category_arg zip_code max_price <$> objects) i
  = selected_at query' category_arg' max_price' objects i.
Proof.
  unfold selected_at. rewrite list_lookup_fmap.
  destruct (objects !! i) as [p|]; [|done]. simpl.
  apply relocated_selected.
Qed.

Lemma key_at_relocated query category_arg zip_code max_price
    (objects : list Product) i :
  key_at (relocated query category_arg zip_code max_price <$> objects) i
  = key_at objects i.
Proof.
  unfold key_at. rewrite list_lookup_fmap.
  destruct (objects !! i) as [p|]; [|done]. simpl.
  by rewrite relocated_sort_key.
Qed.

(** X9. The writes of one search never change what a later search returns:
    after any search, every search returns the references it would have
    returned before it. *)
Theorem search_products_after_search self
    query category_arg zip_code max_price limit
    query' category_arg' zip_code' max_price' limit' :
  (search_products
     (search_products self query category_arg zip_code max_price limit).2
     query' category_arg' zip_code' max_price' limit').1
  = (search_products self query' category_arg' zip_code' max_price'
       limit').1.
Proof.
  rewrite !search_products_spec. cbn [fst snd mock_products].
  rewrite length_fmap. f_equal.
  rewrite (sort_by_ext _ (key_at (mock_products self))).
  - rewrite (sort_by_ext (key_at (_ <$> mock_products self))
                         (key_at (mock_products self)))
      by (intros; apply key_at_relocated).
    f_equal. apply list_filter_iff. intros i.
    by rewrite selected_at_relocated.
  - intros i. by rewrite !key_at_relocated.
Qed.

(** X10. [get_product_details] returns the reference to the first object of
    the catalogue with the given id, and [None] exactly when no object has
    it. *)
Theorem get_product_details_first self product_id :
  match get_product_details self product_id with
  | Some i =>
      ∃ p, mock_products self !! i = Some p ∧ id p = product_id ∧
           ∀ j q, j < i → mock_products self !! j = Some q →
                  id q ≠ product_id
  | None => ∀ p, p ∈ mock_products self → id p ≠ product_id
  end.
Proof.
  unfold get_product_details.
  destruct (list_find _ _) as [[i p]|] eqn:Hfind; simpl.
  - apply list_find_Some in Hfind as (Hp & Hid & Hfirst).
    exists p. split_and!; [done..|]. intros j q Hj Hq. by eapply Hfirst.
  - apply list_find_None in Hfind. rewrite Forall_forall in Hfind.
    intros p Hp. by apply Hfind.
Qed.

Lemma get_product_details_relocated self query category_arg zip_code
    max_price limit product_id :
  get_product_details
    (search_products self query category_arg zip_code max_price limit).2
    product_id
  = get_product_details self product_id.
Proof.
  rewrite search_products_spec. unfold get_product_details.
  cbn [snd mock_products]. rewrite list_find_fmap.
  rewrite (list_find_ext _ (λ p, id p = product_id)).
  - by destruct (list_find _ _) as [[]|].
  - intros p. simpl. by rewrite relocated_id.
Qed.

(** X11. A search changes neither which object an id refers to nor the
    stock reported for it: [get_product_details] and [check_availability]
    answer after any search as they did before. *)
Theorem lookups_after_search self query category_arg zip_code max_price
    limit product_id zip :
  let after :=
    (search_products self query category_arg zip_code max_price limit).2 in
  get_product_details after product_id
  = get_product_details self product_id ∧
  check_availability after product_id zip
  = check_availability self product_id zip.
Proof.
  intros after. subst after. split.
  { apply get_product_details_relocated. }
  unfold check_availability. rewrite get_product_details_relocated.
  destruct (get_product_details self product_id) as [i|]; [|done].
  rewrite search_products_spec. cbn [snd mock_products mbind option_bind].
  rewrite list_lookup_fmap.
  destruct (mock_products self !! i) as [p|]; [|done]. simpl.
  unfold relocated. by destruct (_ && _).
Qed.

(** X12. [check_availability] answers with the error exactly for an id no
    object has; otherwise it reports two stores, the first with the quantity
    of the object and the second with a quantity that is never negative, is
    20 less than a first quantity of 20 or more, and is 0 below that. *)
Theorem check_availability_stock self product_id zip :
  match check_availability self product_id zip with
  | AvailabilityError e =>
      e = "Product not found" ∧
      ∀ p, p ∈ mock_products self → id p ≠ product_id
  | Availability pid available stores =>
      pid = product_id ∧
      ∃ i p first second,
        get_product_details self product_id = Some i ∧
        mock_products self !! i = Some p ∧ id p = product_id ∧
        available = in_stock p ∧ stores = [first; second] ∧
        store_quantity first = quantity_available p ∧
        ∃ n, store_quantity second = Some n ∧ (0 ≤ n)%Z ∧
             (∀ q, quantity_available p = Some q → (20 ≤ q)%Z →
                   n = (q - 20)%Z) ∧
             (∀ q, quantity_available p = Some q → (q < 20)%Z → n = 0%Z) ∧
             (quantity_available p = None → n = 0%Z)
  end.
Proof.
  pose proof (get_product_details_first self product_id) as Hfirst.
  unfold check_availability.
  destruct (get_product_details self product_id) as [i|]; simpl.
  - destruct Hfirst as (p & Hp & Hid & _). rewrite Hp.
    split; [done|]. eexists i, p, _, _. split_and!; try done.
    exists (second_store_quantity (quantity_available p)).
    unfold second_store_quantity. split_and!; [done| | | |].
    + destruct (quantity_available p) as [q|]; [|done].
      case_bool_decide; lia.
    + intros q -> Hq. rewrite bool_decide_eq_false_2 by lia. lia.
    + intros q -> Hq. case_bool_decide; lia.
    + by intros ->.
  - split; [done|]. exact Hfirst.
Qed.

End supplier_composition.

(** ** The product database *)

Section deduplicate.
Import ProductDatabase Derived.
Context {A : Type} (name_of : A → string).
Implicit Types xs : list A.
Implicit Types seen : gset string.

Local Abbreviation key := (λ x : A, name_key (name_of x)).

Lemma deduplicate_loop xs : ∀ seen unique,
  (foldl (deduplicate_body name_of) (seen, unique) xs).2
  = unique ++ first_of_each key seen xs.
Proof.
  induction xs as [|x xs IH]; intros seen unique; simpl.
  - by rewrite app_nil_r.
  - unfold deduplicate_body at 2. simpl.
    destruct (bool_decide (key x ∈ seen)); [apply IH|].
    rewrite IH. by rewrite <-(assoc_L (++)).
Qed.

Lemma deduplicate_products_first_of_each xs :
  deduplicate_products name_of xs = first_of_each key ∅ xs.
Proof. unfold deduplicate_products. by rewrite deduplicate_loop. Qed.

Lemma first_of_each_sublist xs : ∀ seen,
  first_of_each key seen xs `sublist_of` xs.
Proof.
  induction xs as [|x xs IH]; intros seen; simpl; [done|].
  case_bool_decide; [by apply sublist_cons|by apply sublist_skip].
Qed.

Lemma first_of_each_fresh xs : ∀ seen x,
  x ∈ first_of_each key seen xs → key x ∉ seen.
Proof.
  induction xs as [|y xs IH]; intros seen x; simpl.
  - by intros ?%elem_of_nil.
  - case_bool_decide as Hy; [apply IH|].
    intros [->|Hx]%elem_of_cons; [done|].
    apply IH in Hx. set_solver.
Qed.

Lemma first_of_each_NoDup xs : ∀ seen,
  NoDup (key <$> first_of_each key seen xs).
Proof.
  induction xs as [|x xs IH]; intros seen; simpl; [constructor|].
  case_bool_decide as Hx; [apply IH|].
  rewrite fmap_cons. constructor; [|apply IH].
  intros (y & Hkey & Hy)%list_elem_of_fmap.
  apply first_of_each_fresh in Hy. set_solver.
Qed.

Lemma first_of_each_covers xs : ∀ seen x,
  x ∈ xs → key x ∈ seen ∨ key x ∈ key <$> first_of_each key seen xs.
Proof.
  induction xs as [|y xs IH]; intros seen x; [by intros ?%elem_of_nil|].
  simpl. intros [->|Hx]%elem_of_cons.
  - case_bool_decide; [by left|]. right. rewrite fmap_cons. left.
  - case_bool_decide as Hy; [by apply IH|].
    destruct (IH ({[key y]} ∪ seen) x Hx) as [Hs|Hr].
    + apply elem_of_union in Hs as [->%elem_of_singleton|Hs]; [|by left].
      right. rewrite fmap_cons. left.
    + right. rewrite fmap_cons. by right.
Qed.

Lemma first_of_each_keeps_first xs : ∀ seen pre x post,
  xs = pre ++ x :: post → key x ∉ seen → key x ∉ key <$> pre →
  x ∈ first_of_each key seen xs.
Proof.
  induction xs as [|y xs IH]; intros seen pre x post Heq Hseen Hpre.
  - by destruct pre.
  - destruct pre as [|z pre]; simplify_eq/=.
    + rewrite bool_decide_eq_false_2 by done. left.
    + apply not_elem_of_cons in Hpre as [Hne Hpre].
      case_bool_decide as Hy.
      * by eapply IH.
      * right. eapply IH; [done| |done].
        apply not_elem_of_union. split; [|done].
        by intros ?%elem_of_singleton.
Qed.

Lemma first_of_each_id xs : ∀ seen,
  NoDup (key <$> xs) → (∀ x, x ∈ xs → key x ∉ seen) →
  first_of_each key seen xs = xs.
Proof.
  induction xs as [|x xs IH]; intros seen Hnd Hfresh; [done|].
  rewrite fmap_cons in Hnd. apply NoDup_cons in Hnd as [Hx Hnd]. simpl.
  rewrite bool_decide_eq_false_2 by (apply Hfresh; left).
  f_equal. apply IH; [done|]. intros y Hy.
  apply not_elem_of_union. split; [|apply Hfresh; by right].
  intros Heq%elem_of_singleton.
  apply Hx. apply list_elem_of_fmap. by exists y.
Qed.

(** X13. [_deduplicate_products] keeps, in their order, the products whose
    name (lowercased and stripped) was not met earlier in the list: the
    result is a sublist of the input with pairwise different names, every
    name of the input is the name of a product kept, the first product of
    each name is the one kept, and a second pass changes nothing. *)
Theorem deduplicate_products_first xs :
  let unique := deduplicate_products name_of xs in
  unique `sublist_of` xs ∧
  NoDup (key <$> unique) ∧
  (∀ x, x ∈ xs → key x ∈ key <$> unique) ∧
  (∀ pre x post, xs = pre ++ x :: post → key x ∉ key <$> pre →
     x ∈ unique) ∧
  deduplicate_products name_of unique = unique.
Proof.
  intros unique. subst unique. rewrite !deduplicate_products_first_of_each.
  split_and!.
  - apply first_of_each_sublist.
  - apply first_of_each_NoDup.
  - intros x Hx. destruct (first_of_each_covers xs ∅ x Hx); [set_solver|done].
  - intros pre x post Heq Hpre.
    eapply first_of_each_keeps_first; [done|set_solver|done].
  - apply first_of_each_id; [apply first_of_each_NoDup|set_solver].
Qed.

End deduplicate.

Section all_suppliers.
Import Num ProductDatabase Derived.
Context (query : string) (category_arg zip_code : option string)
        (max_price : option num) (limit : Z).
Implicit Types ss : list (string * HomeDepotSupplier.t).

Local Abbreviation step :=
  (search_supplier query category_arg zip_code max_price limit).
Local Abbreviation refs_of :=
  (λ s : HomeDepotSupplier.t,
     (HomeDepotSupplier.search_products s query category_arg zip_code
        max_price limit).1).
Local Abbreviation searched :=
  (λ s : string * HomeDepotSupplier.t,
     (s.1, (HomeDepotSupplier.search_products s.2 query category_arg
              zip_code max_price limit).2)).

Lemma search_suppliers_loop post : ∀ pre refs,
  foldl step ((searched <$> pre) ++ post, refs)
        (seq (length pre) (length post))
  = (searched <$> (pre ++ post),
     refs ++ found_by refs_of (length pre) post).
Proof.
  induction post as [|s post IH]; intros pre refs.
  - simpl. by rewrite !app_nil_r.
  - cbn [length seq foldl found_by].
    assert (((searched <$> pre) ++ s :: post) !! length pre = Some s) as Hs.
    { rewrite lookup_app_r by (rewrite length_fmap; lia).
      by rewrite length_fmap, Nat.sub_diag. }
    unfold search_supplier at 2. cbn [fst snd]. rewrite Hs.
    destruct s as [name supplier]. cbn [fst snd].
    assert (<[length pre := (name, (HomeDepotSupplier.search_products supplier
               query category_arg zip_code max_price limit).2)]>
              ((searched <$> pre) ++ (name, supplier) :: post)
            = (searched <$> (pre ++ [(name, supplier)])) ++ post) as ->.
    { rewrite insert_app_r_alt by (rewrite length_fmap; lia).
      rewrite length_fmap, Nat.sub_diag, fmap_app.
      by rewrite <-(assoc_L (++)). }
    specialize (IH (pre ++ [(name, supplier)])).
    rewrite length_app, Nat.add_1_r in IH. rewrite IH.
    by rewrite <-!(assoc_L (++)).
Qed.

Lemma found_by_elem (search : HomeDepotSupplier.t → list nat) ss : ∀ j r,
  r ∈ found_by search j ss ↔
  ∃ s, j ≤ r.1 ∧ ss !! (r.1 - j) = Some s ∧ r.2 ∈ search s.2.
Proof.
  induction ss as [|s ss IH]; intros j [a b]; simpl.
  - split; [by intros ?%elem_of_nil|]. by intros (? & _ & ? & _).
  - rewrite elem_of_app, list_elem_of_fmap, IH. simpl. split.
    + intros [(i & [= -> ->] & Hi)|(s' & Hj & Hs' & Hb)].
      * exists s. by rewrite Nat.sub_diag.
      * exists s'. split_and!; [lia| |done].
        by replace (a - j) with (S (a - S j)) by lia.
    + intros (s' & Hj & Hs' & Hb).
      destruct (decide (a = j)) as [->|Hne].
      * rewrite Nat.sub_diag in Hs'. simplify_eq/=. left. by exists b.
      * right. exists s'. split_and!; [lia| |done].
        by replace (a - j) with (S (a - S j)) in Hs' by lia.
Qed.

(** What [search_all_suppliers] computes. *)
Lemma search_all_suppliers_spec (self : t) :
  search_all_suppliers self query category_arg zip_code max_price limit
  = let after := Build (searched <$> suppliers self) in
    (sort_by (key_at after) HomeDepotSupplier.ref_lt false
       (deduplicate_products (name_at after)
          (found_by refs_of 0 (suppliers self))),
     after).
Proof.
  unfold search_all_suppliers.
  pose proof (search_suppliers_loop (suppliers self) [] []) as Hloop.
  simpl in Hloop. by rewrite Hloop.
Qed.

(** X14. Every product [search_all_suppliers] returns was returned by the
    search of its own supplier with the same arguments, no two products
    returned have the same lowercased and stripped name, and each supplier
    is left as its own search leaves it. *)
Theorem search_all_suppliers_results (self : t) :
  let found :=
    search_all_suppliers self query category_arg zip_code max_price limit in
  (∀ r, r ∈ found.1 →
     ∃ s, suppliers self !! r.1 = Some s ∧
          r.2 ∈ (HomeDepotSupplier.search_products s.2 query category_arg
                   zip_code max_price limit).1) ∧
  NoDup ((λ r, name_key (name_at found.2 r)) <$> found.1) ∧
  suppliers found.2
  = (λ s, (s.1, (HomeDepotSupplier.search_products s.2 query category_arg
                   zip_code max_price limit).2)) <$> suppliers self.
Proof.
  intros found. subst found. rewrite search_all_suppliers_spec.
  cbv zeta. cbn [fst snd suppliers].
  set (after := Build _).
  set (all := found_by _ 0 _).
  pose proof (deduplicate_products_first (name_at after) all)
    as (Hsub & Hnd & _).
  pose proof (sort_by_perm (key_at after) HomeDepotSupplier.ref_lt false
                (deduplicate_products (name_at after) all)) as Hperm.
  split_and!; [|by rewrite Hperm|done].
  intros r Hr. rewrite Hperm in Hr.
  assert (r ∈ all) as Hall.
  { by eapply elem_of_sublist. }
  apply found_by_elem in Hall as (s & _ & Hs & Hi).
  rewrite Nat.sub_0_r in Hs. by exists s.
Qed.

End all_suppliers.

Section product_lookup.
Import Num ProductDatabase Derived.
Implicit Types self : t.
Implicit Types ss : list (string * HomeDepotSupplier.t).

Lemma first_with_product_Some ss product_id : ∀ j r,
  first_with_product ss j product_id = Some r →
  ∃ s, j ≤ r.1 ∧ ss !! (r.1 - j) = Some s ∧
       HomeDepotSupplier.get_product_details s.2 product_id = Some r.2.
Proof.
  induction ss as [|s ss IH]; intros j r; simpl; [done|].
  destruct (HomeDepotSupplier.get_product_details s.2 product_id)
    as [i|] eqn:Hget.
  - intros [= <-]. exists s. simpl. by rewrite Nat.sub_diag.
  - intros (s' & Hj & Hs' & Hr)%IH. exists s'. split_and!; [lia| |done].
    by replace (r.1 - j) with (S (r.1 - S j)) by lia.
Qed.

Lemma product_at_details self j s product_id i :
  suppliers self !! j = Some s →
  HomeDepotSupplier.get_product_details s.2 product_id = Some i →
  ∃ p, product_at self (j, i) = Some p ∧ HomeDepotSupplier.id p = product_id.
Proof.
  intros Hs Hget.
  pose proof (get_product_details_first s.2 product_id) as Hfirst.
  rewrite Hget in Hfirst. destruct Hfirst as (p & Hp & Hid & _).
  exists p. split; [|done]. unfold product_at. simpl. by rewrite Hs.
Qed.

(** X15. The reference [get_product_by_id] returns, whatever the supplier
    argument, is to an object of the database that has the id asked. *)
Theorem get_product_by_id_sound self product_id supplier r :
  get_product_by_id self product_id supplier = Some r →
  ∃ p, product_at self r = Some p ∧ HomeDepotSupplier.id p = product_id.
Proof.
  unfold get_product_by_id.
  destruct (if HomeDepotSupplier.truthy_str supplier
            then supplier_named self (default "" supplier) else None)
    as [[j s]|] eqn:Hnamed.
  - destruct (HomeDepotSupplier.truthy_str supplier); [|done].
    apply list_find_Some in Hnamed as (Hs & _ & _).
    destruct (HomeDepotSupplier.get_product_details s.2 product_id)
      as [i|] eqn:Hget; [|done].
    intros [= <-]. by eapply product_at_details.
  - intros (s & _ & Hs & Hget)%first_with_product_Some.
    rewrite Nat.sub_0_r in Hs. destruct r as [j i].
    by eapply product_at_details.
Qed.

(** X16. A supplier name the database does not have is not an error: the
    lookup is the lookup over all suppliers. *)
Theorem get_product_by_id_unknown_supplier self product_id name :
  (∀ s, s ∈ suppliers self → s.1 ≠ name) →
  get_product_by_id self product_id (Some name)
  = get_product_by_id self product_id None.
Proof.
  intros Hunknown. unfold get_product_by_id. simpl.
  destruct (negb (bool_decide (name = ""))); [|done].
  assert (supplier_named self name = None) as ->; [|done].
  apply list_find_None, Forall_forall. intros s Hs. by apply Hunknown.
Qed.

Lemma search_all_suppliers_no_zip self query category_arg zip_code max_price
    limit :
  HomeDepotSupplier.truthy_str zip_code = false →
  (search_all_suppliers self query category_arg zip_code max_price limit).2
  = self.
Proof.
  intros Hzip. rewrite search_all_suppliers_spec. cbv zeta. cbn [snd].
  destruct self as [ss]. f_equal. simpl.
  induction ss as [|[name s] ss IH]; [done|].
  rewrite fmap_cons, IH. simpl.
  by rewrite (search_products_no_zip _ _ _ _ _ _ Hzip).
Qed.

(** X17. The alternatives [find_alternatives] returns never include an
    object with the id of the original product, have its category (when it
    has one), and lie within the budget when one is given; the database is
    left as it was. *)
Theorem find_alternatives_results self product budget_range :
  let found := find_alternatives self product budget_range in
  found.2 = self ∧
  ∀ r, r ∈ found.1 →
    ∃ p, product_at self r = Some p ∧
         HomeDepotSupplier.id p ≠ HomeDepotSupplier.id product ∧
         (HomeDepotSupplier.category product ≠ "" →
          HomeDepotSupplier.category p = HomeDepotSupplier.category product) ∧
         ∀ min_price max_price, budget_range = Some (min_price, max_price) →
           le min_price (HomeDepotSupplier.price p) = true ∧
           le (HomeDepotSupplier.price p) max_price = true.
Proof.
  intros found. subst found. unfold find_alternatives.
  set (query := HomeDepotSupplier.category product +:+ " " +:+
                HomeDepotSupplier.subcategory product).
  set (cat := Some (HomeDepotSupplier.category product)).
  pose proof (search_all_suppliers_no_zip self query cat None None 10 eq_refl)
    as Hframe.
  pose proof (search_all_suppliers_results query cat None None 10 self)
    as (Hfound & _ & _).
  set (found := search_all_suppliers self query cat None None 10) in *.
  cbn [fst snd]. rewrite Hframe. split; [done|].
  intros r Hr. rewrite (sort_by_perm _ _ false _) in Hr.
  apply list_elem_of_filter in Hr as [Hother Hr].
  assert (r ∈ found.1 ∧
          ∀ lo hi, budget_range = Some (lo, hi) →
                   in_budget self lo hi r = true) as [Hin Hbudget].
  { destruct budget_range as [[lo hi]|].
    - apply list_elem_of_filter in Hr as [Hb Hr]. split; [done|].
      intros ?? [= <- <-]. by apply Is_true_true.
    - split; [done|]. by intros. }
  destruct (Hfound r Hin) as (s & Hs & Hrefs).
  apply search_products_results in Hrefs as (p & Hp & Hcat & _).
  assert (product_at self r = Some p) as Hat.
  { unfold product_at. by rewrite Hs. }
  exists p. split_and!; [done| | |].
  - apply Is_true_true in Hother. unfold other_id in Hother.
    rewrite Hat in Hother. apply negb_true_iff in Hother.
    by apply bool_decide_eq_false in Hother.
  - intros Hne. by apply (Hcat (HomeDepotSupplier.category product)).
  - intros lo hi Hb. specialize (Hbudget lo hi Hb).
    unfold in_budget, price_at in Hbudget. rewrite Hat in Hbudget.
    by apply andb_true_iff in Hbudget.
Qed.

(** X18. Two electrical products whose specifications have neither a
    "voltage" nor an "amperage" entry are reported compatible, with medium
    confidence and the note "Both rated for NoneV and NoneA": the two absent
    entries compare equal. *)
Theorem check_compatibility_unrated self product1_id product2_id p1 p2 :
  get_product_by_id self product1_id None ≫= product_at self = Some p1 →
  get_product_by_id self product2_id None ≫= product_at self = Some p2 →
  HomeDepotSupplier.category p1 = "electrical" →
  HomeDepotSupplier.category p2 = "electrical" →
  HomeDepotSupplier.specifications p1 !! "voltage" = None →
  HomeDepotSupplier.specifications p1 !! "amperage" = None →
  HomeDepotSupplier.specifications p2 !! "voltage" = None →
  HomeDepotSupplier.specifications p2 !! "amperage" = None →
  ∃ c earlier,
    check_compatibility self product1_id product2_id = inr c ∧
    compatible c = true ∧ confidence c = "medium" ∧
    notes c = earlier ++ ["Both rated for NoneV and NoneA"].
Proof.
  intros H1 H2 Hc1 Hc2 Hv1 Ha1 Hv2 Ha2.
  unfold check_compatibility. rewrite H1, H2.
  unfold compatibility_of. rewrite Hc1, Hc2, Hv1, Ha1, Hv2, Ha2. simpl.
  destruct (contains _ "pex" || contains _ "pex");
    [destruct (contains _ "sharkbite")|]; by eexists _, _.
Qed.

End product_lookup.

(** ** The categories of the code database *)

Section categories.
Import CodeDatabase Derived.
Implicit Types code : record.
Implicit Types codes filed : list record.
Implicit Types cs : categories.

Lemma lookup_key_snoc cs c info k :
  lookup_key (cs ++ [(VStr c, info)]) (VStr k)
  = match lookup_key cs (VStr k) with
    | Some e => Some e
    | None => if bool_decide (c = k) then Some info else None
    end.
Proof.
  induction cs as [|[k' e] cs IH]; simpl; [done|].
  by destruct (key_eq k' (VStr k)).
Qed.

Lemma lookup_update_key f cs c k :
  str_keys cs →
  lookup_key (update_key f cs (VStr c)) (VStr k)
  = if bool_decide (c = k) then f <$> lookup_key cs (VStr k)
    else lookup_key cs (VStr k).
Proof.
  induction 1 as [|[k' e] cs [a Ha] _ IH]; simpl in *.
  - by case_bool_decide.
  - subst k'. simpl.
    destruct (bool_decide (a = c)) eqn:Hac; simpl.
    + apply bool_decide_eq_true in Hac as ->.
      by destruct (bool_decide (c = k)).
    + apply bool_decide_eq_false in Hac.
      destruct (bool_decide (a = k)) eqn:Hak; [|done].
      apply bool_decide_eq_true in Hak as ->.
      by rewrite bool_decide_eq_false_2 by done.
Qed.

Lemma str_keys_update f cs k : str_keys cs → str_keys (update_key f cs k).
Proof.
  induction 1 as [|[k' e] cs Hk Hcs IH]; simpl; [constructor|].
  destruct (key_eq k' k); by constructor.
Qed.

Lemma in_category_snoc k codes code c :
  category_of code = VStr c →
  in_category k (codes ++ [code])
  = in_category k codes ++ (if bool_decide (c = k) then [code] else []).
Proof.
  intros Hc. unfold in_category. rewrite filter_app. f_equal.
  rewrite filter_cons, filter_nil, Hc. simpl.
  by destruct (bool_decide (c = k)).
Qed.

Lemma question_items_falsy code :
  truthy_value (default (VList []) (code !! "common_questions")) = false →
  question_items code = [].
Proof.
  unfold question_items.
  destruct (default _ _) as [|b|n|s|xs]; simpl; try done.
  - intros Hs%negb_false_iff%bool_decide_eq_true. by subst s.
  - by destruct xs.
Qed.

Lemma sliced_items_question_items code n items :
  sliced_items (default (VList []) (code !! "common_questions")) n = Ok items →
  items = take n (question_items code).
Proof.
  unfold question_items, sliced_items.
  destruct (default _ _) as [|b|m|s|xs]; try done.
  - intros <-%Ok_inj. by rewrite fmap_take.
  - by intros <-%Ok_inj.
Qed.

(** The samples of a category after one more record of it. *)
Lemma take_three_snoc {A} (earlier more : list A) :
  take 3 (earlier ++ more)
  = if (length (take 3 earlier) <? 3)%nat
    then take 3 earlier ++ take (3 - length (take 3 earlier)) more
    else take 3 earlier.
Proof.
  rewrite length_take.
  destruct (Nat.ltb_spec (3 `min` length earlier) 3) as [Hlt|Hge].
  - rewrite take_app, !(take_ge earlier) by lia. do 2 f_equal. lia.
  - rewrite take_app_le by lia. done.
Qed.

(** One iteration keeps the dictionary in line with the records read. *)
Lemma get_categories_body_entries codes cs code cs' c :
  str_keys cs →
  (∀ k, lookup_key cs (VStr k) = entry_of (in_category k codes)) →
  category_of code = VStr c →
  get_categories_body cs code = Ok cs' →
  str_keys cs' ∧
  ∀ k, lookup_key cs' (VStr k) = entry_of (in_category k (codes ++ [code])).
Proof.
  intros Hkeys Hinv Hc. unfold get_categories_body.
  fold (category_of code). rewrite Hc. cbn [hashable].
  set (filed := in_category c codes).
  set (cs1 := match lookup_key cs (VStr c) with
              | Some _ => cs
              | None => cs ++ [(VStr c, CategoryInfo 0 [])]
              end).
  assert (str_keys cs1) as Hkeys1.
  { unfold cs1. destruct (lookup_key cs (VStr c)); [done|].
    apply Forall_app. split; [done|]. constructor; [by exists c|constructor]. }
  assert (∀ k, lookup_key cs1 (VStr k)
               = if bool_decide (c = k)
                 then Some (CategoryInfo (Z.of_nat (length filed))
                              (take 3 (filed ≫= question_items)))
                 else entry_of (in_category k codes)) as Hcs1.
  { intros k. unfold cs1. pose proof (Hinv c) as Hcc. fold filed in Hcc.
    destruct (lookup_key cs (VStr c)) as [e|] eqn:Hlook.
    - rewrite Hinv. case_bool_decide as Hk; [|done]. subst k.
      fold filed. rewrite <-Hcc. unfold entry_of in Hcc.
      destruct filed; [done|]. by injection Hcc as ->.
    - rewrite lookup_key_snoc, Hinv.
      case_bool_decide as Hk.
      + subst k. fold filed. rewrite <-Hcc.
        unfold entry_of in Hcc. destruct filed; [done|done].
      + by destruct (entry_of (in_category k codes)). }
  set (bump := λ info, CategoryInfo (count info + 1) (sample_questions info)).
  set (cs2 := update_key bump cs1 (VStr c)).
  assert (str_keys cs2) as Hkeys2 by by apply str_keys_update.
  assert (∀ k, lookup_key cs2 (VStr k)
               = if bool_decide (c = k)
                 then Some (CategoryInfo (Z.of_nat (length filed) + 1)
                              (take 3 (filed ≫= question_items)))
                 else entry_of (in_category k codes)) as Hcs2.
  { intros k. unfold cs2. rewrite lookup_update_key, Hcs1 by done.
    by case_bool_decide. }
  rewrite (Hcs2 c), bool_decide_eq_true_2 by done. cbn [from_option
    sample_questions].
  set (questions := default (VList []) (code !! "common_questions")).
  set (earlier := filed ≫= question_items) in *.
  assert (∀ k samples,
    samples = take 3 (earlier ++ question_items code) →
    (if bool_decide (c = k)
     then Some (CategoryInfo (Z.of_nat (length filed) + 1) samples)
     else entry_of (in_category k codes))
    = entry_of (in_category k (codes ++ [code]))) as Hgoal.
  { intros k samples ->. rewrite (in_category_snoc k codes code c Hc).
    case_bool_decide as Hk; [|by rewrite app_nil_r].
    subst k. fold filed. unfold entry_of.
    destruct (filed ++ [code]) as [|x l] eqn:Hl; [by destruct filed|].
    rewrite <-Hl, length_app, bind_app, bind_singleton. simpl.
    do 2 f_equal. lia. }
  destruct (truthy_value questions && (length (take 3 earlier) <? 3)%nat)
    eqn:Hcond.
  - apply andb_true_iff in Hcond as [Htruthy Hroom]. unfold_bind.
    destruct (sliced_items questions _) as [items|] eqn:Hitems; [|done].
    apply sliced_items_question_items in Hitems.
    intros <-%Ok_inj. split; [by apply str_keys_update|].
    intros k. rewrite lookup_update_key, Hcs2 by done.
    rewrite <-(Hgoal k (take 3 earlier ++ items)).
    + by case_bool_decide.
    + by rewrite take_three_snoc, Hroom, Hitems.
  - intros <-%Ok_inj. split; [done|]. intros k. rewrite Hcs2.
    apply Hgoal. rewrite take_three_snoc.
    apply andb_false_iff in Hcond as [Hfalsy|Hfull].
    + rewrite (question_items_falsy code Hfalsy), take_nil, app_nil_r.
      by destruct (_ <? _)%nat.
    + by rewrite Hfull.
Qed.

Lemma get_categories_loop rest : ∀ codes cs cs',
  str_keys cs →
  (∀ k, lookup_key cs (VStr k) = entry_of (in_category k codes)) →
  Forall string_category rest →
  for_each get_categories_body cs rest = Ok cs' →
  ∀ k, lookup_key cs' (VStr k) = entry_of (in_category k (codes ++ rest)).
Proof.
  induction rest as [|code rest IH]; intros codes cs cs' Hkeys Hinv Hstr.
  - simpl. intros <-%Ok_inj. by rewrite app_nil_r.
  - apply Forall_cons in Hstr as [[c Hc] Hstr]. simpl. unfold_bind.
    destruct (get_categories_body cs code) as [cs1|] eqn:Hbody; [|done].
    destruct (get_categories_body_entries _ _ _ _ _ Hkeys Hinv Hc Hbody)
      as [Hkeys1 Hinv1].
    intros Hrest k.
    rewrite (cons_middle code codes rest), (assoc_L (++)).
    by apply (IH (codes ++ [code]) cs1 cs').
Qed.

(** X19. On a collection whose categories are strings, [get_categories]
    has an entry for a category exactly when some record is filed under it
    (a record without category under "general"); the count of the entry is
    the number of those records and its sample questions are the first three
    of their questions, in collection order. *)
Theorem get_categories_entries (self : t) cs :
  Forall string_category (codes self) →
  (get_categories self).1 = Ok cs →
  ∀ k, lookup_key cs (VStr k) = entry_of (in_category k (codes self)).
Proof.
  intros Hstr Hget k.
  apply (get_categories_loop (codes self) [] [] cs); try done.
  constructor.
Qed.

Lemma key_eq_refl (k : value) : hashable k = true → key_eq k k = true.
Proof.
  destruct k as [|b|n|s|xs]; simpl; try done; intros _;
    by apply bool_decide_eq_true.
Qed.

Lemma lookup_key_snoc_self cs k info :
  hashable k = true → lookup_key cs k = None →
  lookup_key (cs ++ [(k, info)]) k = Some info.
Proof.
  intros Hk. induction cs as [|[k' e] cs IH]; simpl.
  - by rewrite key_eq_refl.
  - by destruct (key_eq k' k).
Qed.

Lemma total_count_snoc cs k :
  total_count (cs ++ [(k, CategoryInfo 0 [])]) = total_count cs.
Proof.
  unfold total_count. rewrite foldr_app. simpl.
  induction cs as [|e cs IH]; simpl; [done|]. by rewrite IH.
Qed.

Lemma total_count_update f cs k (d : Z) :
  (∀ e, count (f e) = (count e + d)%Z) →
  total_count (update_key f cs k)
  = (total_count cs + if lookup_key cs k is Some _ then d else 0)%Z.
Proof.
  intros Hf. unfold total_count.
  induction cs as [|[k' e] cs IH]; simpl; [lia|].
  destruct (key_eq k' k); simpl.
  - rewrite Hf. lia.
  - rewrite IH. lia.
Qed.

Lemma Forall_update_key (P : category_info → Prop) f cs k :
  Forall (λ e, P e.2) cs →
  (∀ e, lookup_key cs k = Some e → P e → P (f e)) →
  Forall (λ e, P e.2) (update_key f cs k).
Proof.
  induction 1 as [|[k' e] cs He Hcs IH]; simpl; [constructor|].
  intros Hf. destruct (key_eq k' k).
  - constructor; [|done]. by apply Hf.
  - constructor; [done|]. by apply IH.
Qed.

Lemma lookup_update_key_same f cs k :
  lookup_key (update_key f cs k) k = f <$> lookup_key cs k.
Proof.
  induction cs as [|[k' e] cs IH]; simpl; [done|].
  destruct (key_eq k' k) eqn:Hk; simpl; by rewrite Hk.
Qed.

Lemma get_categories_body_totals cs code cs' :
  Forall (λ e, length (sample_questions e.2) ≤ 3) cs →
  get_categories_body cs code = Ok cs' →
  total_count cs' = (total_count cs + 1)%Z ∧
  Forall (λ e, length (sample_questions e.2) ≤ 3) cs'.
Proof.
  intros Hthree. unfold get_categories_body.
  set (category := default (VStr "general") (code !! "category")).
  destruct (hashable category) eqn:Hhash; [|done].
  set (cs1 := match lookup_key cs category with
              | Some _ => cs
              | None => cs ++ [(category, CategoryInfo 0 [])]
              end).
  assert (total_count cs1 = total_count cs ∧ is_Some (lookup_key cs1 category)
          ∧ Forall (λ e, length (sample_questions e.2) ≤ 3) cs1)
    as (Htot1 & [e1 He1] & Hthree1).
  { unfold cs1. destruct (lookup_key cs category) as [e|] eqn:Hlook.
    - rewrite Hlook. by eauto.
    - rewrite total_count_snoc, lookup_key_snoc_self by done.
      split_and!; [done|by eauto|].
      apply Forall_app. split; [done|]. repeat constructor. }
  set (bump := λ info, CategoryInfo (count info + 1) (sample_questions info)).
  set (cs2 := update_key bump cs1 category).
  assert (total_count cs2 = (total_count cs + 1)%Z) as Htot2.
  { unfold cs2. rewrite (total_count_update bump cs1 category 1) by done.
    rewrite He1. lia. }
  assert (Forall (λ e, length (sample_questions e.2) ≤ 3) cs2) as Hthree2.
  { apply (Forall_update_key (λ info, length (sample_questions info) ≤ 3));
      [done|]. by intros e _. }
  assert (lookup_key cs2 category = Some (bump e1)) as He2.
  { unfold cs2. by rewrite lookup_update_key_same, He1. }
  rewrite He2. cbn [from_option bump sample_questions].
  destruct (truthy_value _ && _) eqn:Hcond.
  - apply andb_true_iff in Hcond as [_ Hroom%Nat.ltb_lt]. unfold_bind.
    destruct (sliced_items _ _) as [items|] eqn:Hitems; [|done].
    apply sliced_items_question_items in Hitems.
    intros <-%Ok_inj. split.
    + rewrite (total_count_update _ cs2 category 0) by (intros; simpl; lia).
      rewrite He2. lia.
    + apply (Forall_update_key (λ info, length (sample_questions info) ≤ 3));
        [done|].
      intros e He _. rewrite He2 in He. injection He as <-. simpl.
      rewrite length_app, Hitems, length_take. lia.
  - by intros <-%Ok_inj.
Qed.

Lemma get_categories_totals_loop codes : ∀ cs cs',
  Forall (λ e, length (sample_questions e.2) ≤ 3) cs →
  for_each get_categories_body cs codes = Ok cs' →
  total_count cs' = (total_count cs + Z.of_nat (length codes))%Z ∧
  Forall (λ e, length (sample_questions e.2) ≤ 3) cs'.
Proof.
  induction codes as [|code codes IH]; intros cs cs' Hthree.
  - simpl. intros <-%Ok_inj. split; [lia|done].
  - simpl. unfold_bind.
    destruct (get_categories_body cs code) as [cs1|] eqn:Hbody; [|done].
    destruct (get_categories_body_totals _ _ _ Hthree Hbody) as [Htot H1].
    intros Hrest. destruct (IH cs1 cs' H1 Hrest) as [Htot' H'].
    split; [lia|done].
Qed.

(** X20. Whenever [get_categories] returns, on any collection, the counts
    of its entries add up to the number of records, and no entry has more
    than three sample questions. *)
Theorem get_categories_totals (self : t) cs :
  (get_categories self).1 = Ok cs →
  total_count cs = Z.of_nat (length (codes self)) ∧
  Forall (λ e, length (sample_questions e.2) ≤ 3) cs.
Proof.
  intros Hget.
  destruct (get_categories_totals_loop (codes self) [] cs) as [Htot H];
    [constructor|exact Hget|].
  split; [|done]. rewrite Htot. unfold total_count. simpl. lia.
Qed.

End categories.

(** ** More on the calculators *)

Section calculators_more.
Import Num MaterialCalculator.

Lemma round_to_coil_sizes feet bought :
  round_to_coil feet = Ok bought →
  (bought = 100%Z ∨ ∃ n, bought = (n * 300)%Z) ∧
  ((feet ≤ 100)%Z → bought = 100%Z) ∧
  ((100 < feet ≤ 300)%Z → bought = 300%Z).
Proof.
  unfold round_to_coil.
  destruct (Z.leb_spec feet 100) as [H1|H1].
  { intros <-%Ok_inj. split_and!; [by left|done|lia]. }
  destruct (Z.leb_spec feet 300) as [H3|H3].
  { intros <-%Ok_inj. split_and!; [right; by exists 1%Z|lia|done]. }
  unfold_bind. destruct (truediv _ _) as [q|]; [|done].
  destruct (ceil q) as [n|]; [|done].
  intros <-%Ok_inj. split_and!; [right; by exists n|lia|lia].
Qed.

(** X21. Whenever [calculate_pex_pipe] returns, the length to buy of each
    pipe is 100 or a multiple of 300; it is 100 for a need of 100 feet or
    less (zero or a negative need included) and 300 for a need of 101 to 300
    feet. *)
Theorem pex_pipe_coil_sizes num_fixtures avg_distance_per_fixture
    manifold_system r pipe :
  calculate_pex_pipe num_fixtures avg_distance_per_fixture manifold_system
  = Ok r →
  pipe = hot_water_pipe r ∨ pipe = cold_water_pipe r →
  (feet_to_buy pipe = 100%Z ∨ ∃ n, feet_to_buy pipe = (n * 300)%Z) ∧
  ((feet_needed pipe ≤ 100)%Z → feet_to_buy pipe = 100%Z) ∧
  ((100 < feet_needed pipe ≤ 300)%Z → feet_to_buy pipe = 300%Z).
Proof.
  unfold calculate_pex_pipe. unfold_bind.
  destruct (if manifold_system then _ else _) as [feet|]; [|done].
  destruct (mul feet.1 _) as [hot|]; [|done].
  destruct (ceil hot) as [hot_total|]; [|done].
  destruct (mul feet.2 _) as [cold|]; [|done].
  destruct (ceil cold) as [cold_total|]; [|done].
  destruct (round_to_coil hot_total) as [hot_buy|] eqn:Hhot; [|done].
  destruct (round_to_coil cold_total) as [cold_buy|] eqn:Hcold; [|done].
  intros <-%Ok_inj [->| ->]; simpl.
  - by apply round_to_coil_sizes.
  - by apply round_to_coil_sizes.
Qed.

Lemma truediv_by_zero (x : num) : truediv x (Int 0) = Raise ZeroDivisionError.
Proof. by destruct x. Qed.

Lemma mul_int_outcomes (x : num) (n : Z) :
  (∃ y, mul x (Int n) = Ok y) ∨ mul x (Int n) = Raise OverflowError.
Proof.
  destruct x as [m|f]; simpl; [by eauto|].
  unfold_bind. unfold of_int.
  destruct (is_infinity _); [by right|by eauto].
Qed.

(** X22. A coverage of 0 per gallon is not checked: [calculate_paint_needed]
    then never returns, it raises [ZeroDivisionError] (or the
    [OverflowError] of the product of the area and the coats). *)
Theorem paint_zero_coverage area_sq_ft coats :
  calculate_paint_needed area_sq_ft coats 0 = Raise ZeroDivisionError ∨
  calculate_paint_needed area_sq_ft coats 0 = Raise OverflowError.
Proof.
  unfold calculate_paint_needed.
  destruct (mul_int_outcomes area_sq_ft coats) as [[total ->]| ->].
  - left. unfold_bind. by rewrite truediv_by_zero.
  - by right.
Qed.

End calculators_more.

(** ** The further theorems at the sample data *)

Section further_instances.
Import Num CodeDatabase Spec Derived Examples.

Lemma search_lowercased_query_sample :
  search sample_db (lower "OUTLET Height") "National" None 3
  = search sample_db "OUTLET Height" "National" None 3.
Proof.
  apply (search_lowercased_query sample_db "OUTLET Height" "National" None 3).
  reflexivity.
Defined.

Lemma search_word_order_sample :
  search sample_db "outlet height" "National" None 3
  = search sample_db "HEIGHT  outlet" "National" None 3.
Proof.
  apply (search_word_order sample_db "outlet height" "HEIGHT  outlet").
  vm_compute. apply perm_swap.
Defined.

Lemma search_top_k_prefix_sample :
  (search sample_db "outlet HEIGHT outlet" "National" None 1).1
  = Ok (take (Z.to_nat 1) sample_results) ∧
  (Z.of_nat (length sample_results) ≤ 3)%Z ∧
  length sample_results ≤ length (codes sample_db).
Proof.
  apply (search_top_k_prefix sample_db "outlet HEIGHT outlet" "National"
           None 1 3 sample_results).
  - lia.
  - vm_compute. reflexivity.
Defined.

Lemma search_negative_top_k_sample :
  (search sample_db "outlet HEIGHT outlet" "National" None (-1)).1
  = Ok (take (length sample_results - Z.to_nat (- -1)) sample_results).
Proof.
  apply (search_negative_top_k sample_db "outlet HEIGHT outlet" "National"
           None (-1) sample_results).
  - lia.
  - vm_compute. reflexivity.
Defined.

Lemma search_finds_title_word_sample :
  ∃ results n,
    (search sample_db "OUTLET rules" "National" None 4).1 = Ok results ∧
    (1 ≤ n)%Z ∧ with_score outlet_code n ∈ results.
Proof.
  apply (search_finds_title_word sample_db "OUTLET rules" "National" None 4
           outlet_code "Outlet Spacing" "outlet").
  - repeat constructor.
  - apply list_elem_of_further, list_elem_of_here.
  - reflexivity.
  - intros c Hc. discriminate Hc.
  - reflexivity.
  - reflexivity.
  - vm_compute. apply list_elem_of_here.
  - reflexivity.
  - vm_compute. discriminate.
Defined.

Lemma search_products_results_sample :
  ∃ p,
    HomeDepotSupplier.mock_products depot !! 1 = Some p ∧
    (∀ c, Some "electrical" = Some c → c ≠ "" →
          HomeDepotSupplier.category p = c) ∧
    (∀ m, Some (Int 100) = Some m → truthy m = true →
          gt (HomeDepotSupplier.price p) m = false) ∧
    ∃ word, word ∈ split (lower "Wire") ∧
            contains (lower (HomeDepotSupplier.name p +:+ " " +:+
                             HomeDepotSupplier.category p +:+ " " +:+
                             HomeDepotSupplier.subcategory p)) word = true.
Proof.
  apply (search_products_results depot "Wire" (Some "electrical") None
           (Some (Int 100)) 10 1).
  vm_compute. apply list_elem_of_here.
Defined.

Lemma get_product_by_id_sound_sample :
  ∃ p, ProductDatabase.product_at product_db (0, 1) = Some p ∧
       HomeDepotSupplier.id p = "HD-12346".
Proof.
  apply (get_product_by_id_sound product_db "HD-12346" (Some "home_depot")
           (0, 1)).
  vm_compute. reflexivity.
Defined.

Lemma get_product_by_id_unknown_supplier_sample :
  ProductDatabase.get_product_by_id product_db "HD-12346" (Some "lowes")
  = ProductDatabase.get_product_by_id product_db "HD-12346" None.
Proof.
  apply (get_product_by_id_unknown_supplier product_db "HD-12346" "lowes").
  intros s Hs%list_elem_of_singleton. subst s. discriminate.
Defined.

Lemma check_compatibility_unrated_sample :
  ∃ c earlier,
    ProductDatabase.check_compatibility product_db "HD-12345" "HD-12346"
    = inr c ∧
    ProductDatabase.compatible c = true ∧
    ProductDatabase.confidence c = "medium" ∧
    ProductDatabase.notes c = earlier ++ ["Both rated for NoneV and NoneA"].
Proof.
  apply (check_compatibility_unrated product_db "HD-12345" "HD-12346"
           romex cerrowire);
    vm_compute; reflexivity.
Defined.

Lemma get_categories_entries_sample :
  lookup_key question_categories (VStr "electrical")
  = entry_of (in_category "electrical" question_codes) ∧
  lookup_key question_categories (VStr "plumbing")
  = entry_of (in_category "plumbing" question_codes).
Proof.
  split; apply (get_categories_entries question_db question_categories).
  all: try (vm_compute; reflexivity).
  all: repeat (constructor; [by eexists|]); constructor.
Defined.

Lemma get_categories_totals_sample :
  total_count question_categories = Z.of_nat (length question_codes) ∧
  Forall (λ e, length (sample_questions e.2) ≤ 3) question_categories.
Proof.
  apply (get_categories_totals question_db question_categories).
  vm_compute. reflexivity.
Defined.

Lemma pex_pipe_coil_sizes_sample :
  MaterialCalculator.calculate_pex_pipe (Int 8) (Int 30) true = Ok pex_sample ∧
  ((100 < MaterialCalculator.feet_needed
            (MaterialCalculator.hot_water_pipe pex_sample) ≤ 300)%Z →
   MaterialCalculator.feet_to_buy (MaterialCalculator.hot_water_pipe pex_sample)
   = 300%Z).
Proof.
  assert (MaterialCalculator.calculate_pex_pipe (Int 8) (Int 30) true
          = Ok pex_sample) as Hr by (vm_compute; reflexivity).
  split; [exact Hr|].
  exact (proj2 (proj2 (pex_pipe_coil_sizes (Int 8) (Int 30) true pex_sample
                         (MaterialCalculator.hot_water_pipe pex_sample) Hr
                         (or_introl eq_refl)))).
Defined.

End further_instances.
